(** * go-logparser: a shallow embedding of the parsing core

    The Go package [logparser] turns raw log lines into [LogEntry] records.
    This development embeds its line classification and field extraction
    code (the normalizers and the parser facade of types.go, the text,
    JSON and logfmt parsers of text.go, the detector of unnamed/part_000)
    and proves the properties its specification states.

    Go strings are byte sequences: they are [string]s here, one [ascii] per
    byte.  A [map[string]interface{}] is a [gmap string Value].  What the
    package takes from the Go runtime and standard library and does not
    define itself ([json.Unmarshal], [time.Parse], [time.Now], [regexp],
    [bufio.Scanner], the Unicode paths of [strings.ToUpper] and
    [strings.TrimSpace], the out-of-range result of a float conversion) is
    a field of the class
    [GoRuntime]; every theorem holds for every such runtime. *)

From Stdlib Require Import ZArith Ascii Floats.
From stdpp Require Import gmap strings list fin_maps.

Local Open Scope Z_scope.

(** ** Bytes and strings *)

(** The byte 0x22; a string literal cannot hold it. *)
Definition dquote : ascii := "034"%char.
Definition backslash : ascii := "\"%char.

Definition byte_val (c : ascii) : Z := Z.of_N (N_of_ascii c).
Definition byte_of (z : Z) : ascii := ascii_of_N (Z.to_N z).

(** [s += string(b)] and [strings.Builder.WriteByte(b)] on raw bytes. *)
Fixpoint snoc (s : string) (c : ascii) : string :=
  match s with
  | EmptyString => String c EmptyString
  | String a s' => String a (snoc s' c)
  end.

(** [string(ch)] for [ch] of type [byte]: the conversion of an integer to a
    string yields the UTF-8 encoding of that code point, so a byte from 0x80
    on becomes two bytes. *)
Definition string_of_byte (ch : ascii) : string :=
  let v := byte_val ch in
  if v <? 128 then String ch EmptyString
  else String (byte_of (Z.lor 192 (Z.shiftr v 6)))
        (String (byte_of (Z.lor 128 (Z.land v 63))) EmptyString).

(** [utf8.RuneSelf]: bytes below it are single-byte runes. *)
Definition RuneSelf : Z := 128.

Fixpoint isASCII (s : string) : bool :=
  match s with
  | EmptyString => true
  | String c s' => (byte_val c <? RuneSelf) && isASCII s'
  end.

Definition asciiUpper (c : ascii) : ascii :=
  let v := byte_val c in
  if (97 <=? v) && (v <=? 122) then byte_of (v - 32) else c.

Fixpoint mapBytes (f : ascii → ascii) (s : string) : string :=
  match s with
  | EmptyString => EmptyString
  | String c s' => String (f c) (mapBytes f s')
  end.

(** The table [asciiSpace] of package strings: tab, LF, VT, FF, CR, space. *)
Definition asciiSpace (c : ascii) : bool :=
  let v := byte_val c in
  (v =? 9) || (v =? 10) || (v =? 11) || (v =? 12) || (v =? 13) || (v =? 32).

Fixpoint trimLeftSpace (s : string) : string :=
  match s with
  | EmptyString => EmptyString
  | String c s' => if asciiSpace c then trimLeftSpace s' else s
  end.

Fixpoint trimRightSpace (s : string) : string :=
  match s with
  | EmptyString => EmptyString
  | String c s' =>
      match trimRightSpace s' with
      | EmptyString => if asciiSpace c then EmptyString else String c EmptyString
      | t => String c t
      end
  end.

(** [len(s) >= len(prefix) && s[:len(prefix)] == prefix] *)
Definition HasPrefix (s pre : string) : bool :=
  (String.length pre <=? String.length s)%nat
  && String.eqb (String.substring 0 (String.length pre) s) pre.

(** [len(s) >= len(suffix) && s[len(s)-len(suffix):] == suffix] *)
Definition HasSuffix (s suf : string) : bool :=
  (String.length suf <=? String.length s)%nat
  && String.eqb
       (String.substring (String.length s - String.length suf)
          (String.length suf) s) suf.

(** [strings.Contains(s, substr)]: some suffix of [s] starts with [substr]. *)
Fixpoint Contains (s sub : string) : bool :=
  HasPrefix s sub
  || match s with
     | EmptyString => false
     | String _ s' => Contains s' sub
     end.

(** [strings.Split(s, sep)] for a one-byte separator: the pieces between
    the separators, one more than there are separators. *)
Fixpoint splitAcc (sep : ascii) (cur s : string) : list string :=
  match s with
  | EmptyString => [cur]
  | String c s' =>
      if Ascii.eqb c sep then cur :: splitAcc sep EmptyString s'
      else splitAcc sep (snoc cur c) s'
  end.

Definition Split (s : string) (sep : ascii) : list string :=
  splitAcc sep EmptyString s.

Definition newline : ascii := "010"%char.

(** ** Instants *)

Inductive Location : Type :=
  | UTC
  | LocalZone
  | FixedZone (name : string) (offset : Z).

(** [time.Time] without a monotonic reading: seconds since January 1 of
    year 1, 00:00:00 UTC, the nanoseconds within the second, a location. *)
Record Time : Type := mkTime { sec : Z; nsec : Z; loc : Location }.

(** The zero value [time.Time{}]. *)
Definition zeroTime : Time := mkTime 0 0 UTC.

Definition IsZero (t : Time) : bool := (sec t =? 0) && (nsec t =? 0).

(** A signed 64-bit integer as a [Z], wrapped. *)
Definition wrap64 (z : Z) : Z := (z + 2 ^ 63) mod 2 ^ 64 - 2 ^ 63.

Definition unixToInternal : Z :=
  (1969 * 365 + 1969 / 4 - 1969 / 100 + 1969 / 400) * 86400.

(** [time.Unix(sec, nsec)] *)
Definition time_Unix (s ns : Z) : Time :=
  let '(s, ns) :=
    if (ns <? 0) || (1000000000 <=? ns) then
      let n := Z.quot ns 1000000000 in
      let s := wrap64 (s + n) in
      let ns := wrap64 (ns - n * 1000000000) in
      if ns <? 0 then (wrap64 (s - 1), wrap64 (ns + 1000000000)) else (s, ns)
    else (s, ns) in
  mkTime (wrap64 (s + unixToInternal)) ns LocalZone.

(** ** Dynamically typed values *)

Set Warnings "-register-all".

(** What an [interface{}] holds in this package: the values
    [json.Unmarshal] stores (string, float64, bool, nil, []interface{},
    map[string]interface{}) and the strings of the logfmt tokenizer. *)
Inductive Value : Type :=
  | VNull
  | VBool (b : bool)
  | VNumber (f : float)
  | VString (s : string)
  | VArray (vs : list Value)
  | VObject (kvs : list (string * Value)).

(** ** Errors and results *)

Inductive error : Type :=
  | ErrEmptyLine
  | ErrInvalidJSON (cause : string)
  | ErrAutoDetection
  | ErrScanner (cause : string)
  | ParseError (Type_ : string) (Value_ : Value) (Err_ : string).

Inductive Result (A : Type) : Type :=
  | Ok (a : A)
  | Err (e : error).
Arguments Ok {A} a.
Arguments Err {A} e.

Definition isOk {A} (r : Result A) : bool :=
  match r with Ok _ => true | Err _ => false end.

(** ** The Go runtime *)

Class GoRuntime : Type := {
  (** [strings.ToUpper] and [strings.TrimSpace] on a string with a byte
      from 0x80 on (their Unicode paths) *)
  unicode_ToUpper : string → string;
  unicode_TrimSpace : string → string;
  (** [int64(v)] for a float64 [v] whose truncation is no int64, or that
      is no number: implementation-specific *)
  int64_overflow : float → Z;
  (** [time.Parse(layout, value)], [None] for an error *)
  time_Parse : string → string → option Time;
  (** the wall clock: the reading of the [n]-th call of [time.Now] *)
  time_Now : nat → Time;
  (** [json.Unmarshal([]byte(line), &raw)] for [raw] a
      [map[string]interface{}]: the map stored, or the error's text *)
  json_Unmarshal : string → string + gmap string Value;
  (** package regexp *)
  Regexp : Type;
  regexp_Compile : string → option Regexp;
  FindStringSubmatch : Regexp → string → option (list string);
  (** an [io.Reader] under a [bufio.Scanner] with a buffer of [BufferSize]
      bytes: the texts of the calls of [Scan] that return true, then what
      [Err] returns *)
  Reader : Type;
  scanLines : Reader → list string * option string;
}.

Section Normalizer.
Context `{RT : GoRuntime}.

(** [strings.ToUpper]: ASCII strings are mapped byte by byte. *)
Definition ToUpper (s : string) : string :=
  if isASCII s then mapBytes asciiUpper s else unicode_ToUpper s.

(** [strings.TrimSpace]: ASCII strings lose their leading and trailing
    [asciiSpace] bytes. *)
Definition TrimSpace (s : string) : string :=
  if isASCII s then trimRightSpace (trimLeftSpace s) else unicode_TrimSpace s.

Definition LevelInfo : string := "INFO".
Definition LevelError : string := "ERROR".

(** types.go:63, [ParseLevel] *)
Definition ParseLevel (s : string) : string :=
  let u := ToUpper s in
  if String.eqb u "DEBUG" || String.eqb u "DBG" then "DEBUG"
  else if String.eqb u LevelInfo || String.eqb u "INF" then "INFO"
  else if String.eqb u "WARN" || String.eqb u "WARNING" || String.eqb u "WRN"
    then "WARN"
  else if String.eqb u "ERROR" || String.eqb u "ERR" then "ERROR"
  else if String.eqb u "FATAL" || String.eqb u "FTL" then "FATAL"
  else "INFO".

(** [int64(v)]: truncation toward zero. *)
Definition int64_of_float64 (v : float) : Z :=
  match Prim2SF v with
  | S754_zero _ => 0
  | S754_finite s m e =>
      let mag := if 0 <=? e then Z.pos m * 2 ^ e else Z.pos m / 2 ^ (- e) in
      let z := if s then - mag else mag in
      if (- 2 ^ 63 <=? z) && (z <? 2 ^ 63) then z else int64_overflow v
  | _ => int64_overflow v
  end.

Definition RFC3339 : string := "2006-01-02T15:04:05Z07:00".
Definition RFC3339Nano : string := "2006-01-02T15:04:05.999999999Z07:00".

Definition timestampFormats : list string :=
  [ RFC3339; RFC3339Nano; "2006-01-02T15:04:05.000Z";
    "2006-01-02 15:04:05"; "Jan 02 15:04:05" ].

(** [for _, format := range formats]: the first layout that parses. *)
Fixpoint tryFormats (formats : list string) (v : string) : option Time :=
  match formats with
  | [] => None
  | format :: rest =>
      match time_Parse format v with
      | Some t => Some t
      | None => tryFormats rest v
      end
  end.

(** types.go:81, [parseTimestamp] *)
Definition parseTimestamp (val : Value) : Result Time :=
  match val with
  | VString v =>
      match tryFormats timestampFormats v with
      | Some t => Ok t
      | None => Err (ParseError "timestamp" (VString v) "unknown time format")
      end
  | VNumber v => Ok (time_Unix (int64_of_float64 v) 0)
  | _ => Err (ParseError "timestamp" val "unsupported timestamp type")
  end.

End Normalizer.

(** ** Records *)

(** types.go:10, [LogEntry] *)
Record LogEntry : Type := mkLogEntry {
  Timestamp : Time;
  Level : string;
  Message : string;
  Fields : gmap string Value;
}.

Definition setTimestamp (t : Time) (e : LogEntry) : LogEntry :=
  mkLogEntry t (Level e) (Message e) (Fields e).
Definition setLevel (l : string) (e : LogEntry) : LogEntry :=
  mkLogEntry (Timestamp e) l (Message e) (Fields e).
Definition setMessage (m : string) (e : LogEntry) : LogEntry :=
  mkLogEntry (Timestamp e) (Level e) m (Fields e).
Definition setFields (f : gmap string Value) (e : LogEntry) : LogEntry :=
  mkLogEntry (Timestamp e) (Level e) (Message e) f.

(** [for k, v := range m { dst[k] = v }] *)
Definition copyFields (m dst : gmap string Value) : gmap string Value :=
  map_fold (λ k v acc, <[k:=v]> acc) dst m.

(** types.go:18, [Format]: an [int]. *)
Definition Format : Type := Z.
Definition FormatAuto : Format := 0.
Definition FormatJSON : Format := 1.
Definition FormatLogfmt : Format := 2.
Definition FormatText : Format := 3.

Definition LevelIndex : Z := 2.
Definition MessageIndex : Z := 3.
Definition MessageIndexAlt : Z := 2.

(** ** The logfmt tokenizer *)

(** The local variables of [parseLogfmtPairs]. *)
Record TokState : Type := mkTok {
  pairs : gmap string Value;
  key : string;
  value : string;
  inQuotes : bool;
  inKey : bool;
}.

Definition tokInit : TokState := mkTok ∅ EmptyString EmptyString false true.

(** [if key != "" { pairs[key] = value.String() }] *)
Definition emit (st : TokState) : gmap string Value :=
  if String.eqb (key st) EmptyString then pairs st
  else <[key st := VString (value st)]> (pairs st).

(** The body of the loop at index [i]: [prev] is [line[i-1]], absent when
    [i = 0], and [ch] is [line[i]]. *)
Definition tokStep (prev : option ascii) (ch : ascii) (st : TokState) : TokState :=
  if Ascii.eqb ch "="%char && inKey st && negb (inQuotes st) then
    mkTok (pairs st) (key st) (value st) (inQuotes st) false
  else if Ascii.eqb ch dquote && negb (inKey st) then
    match prev with
    | Some p =>
        if negb (Ascii.eqb p backslash) then
          mkTok (pairs st) (key st) (value st) (negb (inQuotes st)) (inKey st)
        else mkTok (pairs st) (key st) (snoc (value st) ch) (inQuotes st) (inKey st)
    | None => mkTok (pairs st) (key st) (snoc (value st) ch) (inQuotes st) (inKey st)
    end
  else if Ascii.eqb ch " "%char && negb (inQuotes st) && negb (inKey st) then
    mkTok (emit st) EmptyString EmptyString (inQuotes st) true
  else if inKey st then
    mkTok (pairs st) (key st +:+ string_of_byte ch) (value st) (inQuotes st) (inKey st)
  else mkTok (pairs st) (key st) (snoc (value st) ch) (inQuotes st) (inKey st).

(** [for i := range len(line)] from an index on: [rest] is [line[i:]]. *)
Fixpoint tokLoop (prev : option ascii) (rest : string) (st : TokState) : TokState :=
  match rest with
  | EmptyString => st
  | String ch rest' => tokLoop (Some ch) rest' (tokStep prev ch st)
  end.

(** text.go:549, [parseLogfmtPairs] *)
Definition parseLogfmtPairs (line : string) : gmap string Value :=
  emit (tokLoop None line tokInit).

(** ** Lifting the well-known keys *)

Section Lifting.
Context `{RT : GoRuntime}.

(** The first key of [keys] that the map holds with a value
    [parseTimestamp] accepts, and the instant. *)
Fixpoint firstTimestamp (keys : list string) (raw : gmap string Value)
    : option (string * Time) :=
  match keys with
  | [] => None
  | k :: rest =>
      match raw !! k with
      | Some val =>
          match parseTimestamp val with
          | Ok t => Some (k, t)
          | Err _ => firstTimestamp rest raw
          end
      | None => firstTimestamp rest raw
      end
  end.

(** The first key of [keys] that the map holds with a string, and the
    string: [if val, ok := raw[key]; ok { if s, ok := val.(string); ok ]. *)
Fixpoint firstString (keys : list string) (raw : gmap string Value)
    : option (string * string) :=
  match keys with
  | [] => None
  | k :: rest =>
      match raw !! k with
      | Some (VString s) => Some (k, s)
      | _ => firstString rest raw
      end
  end.

End Lifting.

(** ** Reading the clock, failing *)

(** A computation of the package: it runs from the number of readings of
    the wall clock taken so far, returns a value or a Go [error], and
    leaves the new number of readings. *)
Definition M (A : Type) : Type := nat → Result A * nat.

Definition ret {A} (a : A) : M A := λ n, (Ok a, n).
Definition fail {A} (e : error) : M A := λ n, (Err e, n).
Definition bind {A B} (m : M A) (k : A → M B) : M B :=
  λ n, match m n with
       | (Ok a, n') => k a n'
       | (Err e, n') => (Err e, n')
       end.

Notation "x <- c1 ;; c2" := (bind c1 (λ x, c2))
  (at level 100, c1 at next level, right associativity).

Section Parsers.
Context `{RT : GoRuntime}.

(** [time.Now()] *)
Definition now : M Time := λ n, (Ok (time_Now n), S n).

(** The loop shared by [parseJSON], [parseLogfmt] and [parseText]:
    [entry, err := parseLine(line); if err != nil { return nil, err };
    entries = append(entries, *entry)]. *)
Fixpoint forLines (parseLine : string → M LogEntry) (lines : list string)
    (entries : list LogEntry) : M (list LogEntry) :=
  match lines with
  | [] => ret entries
  | line :: rest =>
      entry <- parseLine line ;;
      forLines parseLine rest (entries ++ [entry])
  end.

(** *** JSON *)

(** The keys [extractJSONTimestamp], [extractJSONLevel] and
    [extractJSONMessage] range over. *)
Definition jsonTimestampKeys : list string :=
  ["timestamp"; "time"; "@timestamp"; "ts"].
Definition jsonLevelKeys : list string := ["level"; "severity"; "log.level"].
Definition jsonMessageKeys : list string := ["message"; "msg"; "log"].

(** text.go:443, [extractJSONTimestamp] *)
Definition extractJSONTimestamp (raw : gmap string Value) (entry : LogEntry)
    : M (gmap string Value * LogEntry) :=
  match firstTimestamp jsonTimestampKeys raw with
  | Some (k, t) => ret (delete k raw, setTimestamp t entry)
  | None =>
      if IsZero (Timestamp entry) then
        t <- now ;; ret (raw, setTimestamp t entry)
      else ret (raw, entry)
  end.

(** text.go:462, [extractJSONLevel] *)
Definition extractJSONLevel (raw : gmap string Value) (entry : LogEntry)
    : gmap string Value * LogEntry :=
  match firstString jsonLevelKeys raw with
  | Some (k, s) => (delete k raw, setLevel (ParseLevel s) entry)
  | None => (raw, setLevel LevelInfo entry)
  end.

(** text.go:479, [extractJSONMessage] *)
Definition extractJSONMessage (raw : gmap string Value) (entry : LogEntry)
    : gmap string Value * LogEntry :=
  match firstString jsonMessageKeys raw with
  | Some (k, s) => (delete k raw, setMessage s entry)
  | None => (raw, entry)
  end.

(** text.go:413, [parseJSONLine] *)
Definition parseJSONLine (line : string) : M LogEntry :=
  let line := TrimSpace line in
  if String.eqb line EmptyString then fail ErrEmptyLine
  else
    match json_Unmarshal line with
    | inl err => fail (ErrInvalidJSON err)
    | inr raw =>
        let entry := mkLogEntry zeroTime EmptyString EmptyString ∅ in
        r <- extractJSONTimestamp raw entry ;;
        let '(raw, entry) := r in
        let '(raw, entry) := extractJSONLevel raw entry in
        let '(raw, entry) := extractJSONMessage raw entry in
        ret (setFields (copyFields raw (Fields entry)) entry)
    end.

(** text.go:397, [parseJSON] *)
Definition parseJSON (lines : list string) : M (list LogEntry) :=
  forLines parseJSONLine lines [].

(** *** logfmt *)

(** text.go:602, [extractLogfmtTimestamp] *)
Definition extractLogfmtTimestamp (pairs : gmap string Value) (entry : LogEntry)
    : gmap string Value * LogEntry :=
  match firstTimestamp ["timestamp"; "time"; "ts"] pairs with
  | Some (k, t) => (delete k pairs, setTimestamp t entry)
  | None => (pairs, entry)
  end.

(** text.go:617, [extractLogfmtLevel] *)
Definition extractLogfmtLevel (pairs : gmap string Value) (entry : LogEntry)
    : gmap string Value * LogEntry :=
  match pairs !! "level" with
  | Some (VString s) => (delete "level" pairs, setLevel (ParseLevel s) entry)
  | _ => (pairs, entry)
  end.

(** text.go:628, [extractLogfmtMessage] *)
Definition extractLogfmtMessage (pairs : gmap string Value) (entry : LogEntry)
    : gmap string Value * LogEntry :=
  match firstString ["msg"; "message"] pairs with
  | Some (k, s) => (delete k pairs, setMessage s entry)
  | None => (pairs, entry)
  end.

(** text.go:516, [parseLogfmtLine] *)
Definition parseLogfmtLine (line : string) : M LogEntry :=
  let line := TrimSpace line in
  if String.eqb line EmptyString then fail ErrEmptyLine
  else
    let entry := mkLogEntry zeroTime "INFO" EmptyString ∅ in
    let pairs := parseLogfmtPairs line in
    let '(pairs, entry) := extractLogfmtTimestamp pairs entry in
    let '(pairs, entry) := extractLogfmtLevel pairs entry in
    let '(pairs, entry) := extractLogfmtMessage pairs entry in
    let entry := setFields (copyFields pairs (Fields entry)) entry in
    if IsZero (Timestamp entry) then
      t <- now ;; ret (setTimestamp t entry)
    else ret entry.

(** text.go:500, [parseLogfmt] *)
Definition parseLogfmt (lines : list string) : M (list LogEntry) :=
  forLines parseLogfmtLine lines [].

(** *** Text *)

(** text.go:10, [textPattern] *)
Record textPattern : Type := mkPattern {
  regex : Regexp;
  tsFormat : string;
  tsIndex : Z;
  lvlIndex : Z;
  msgIndex : Z;
}.

(** [0 < i && i < len(matches)] *)
Definition inMatches (i : Z) (matches : list string) : bool :=
  (0 <? i) && (i <? Z.of_nat (length matches)).

(** [matches[i]] under [inMatches] *)
Definition matchAt (matches : list string) (i : Z) : string :=
  nth (Z.to_nat i) matches EmptyString.

(** The body of the loop of [parseTextLine] once [matches != nil]. *)
Definition applyPattern (pattern : textPattern) (matches : list string)
    (entry : LogEntry) : LogEntry :=
  let entry :=
    if inMatches (tsIndex pattern) matches
       && negb (String.eqb (tsFormat pattern) EmptyString) then
      match time_Parse (tsFormat pattern) (matchAt matches (tsIndex pattern)) with
      | Some t => setTimestamp t entry
      | None => entry
      end
    else entry in
  let entry :=
    if inMatches (lvlIndex pattern) matches then
      setLevel (ParseLevel (matchAt matches (lvlIndex pattern))) entry
    else entry in
  if inMatches (msgIndex pattern) matches then
    setMessage (matchAt matches (msgIndex pattern)) entry
  else entry.

(** [for _, pattern := range patterns]: [continue] without a match,
    [break] after the first one. *)
Fixpoint tryPatterns (patterns : list textPattern) (line : string)
    (entry : LogEntry) : LogEntry :=
  match patterns with
  | [] => entry
  | pattern :: rest =>
      match FindStringSubmatch (regex pattern) line with
      | None => tryPatterns rest line entry
      | Some matches => applyPattern pattern matches entry
      end
  end.

(** text.go:36, [parseTextLine] *)
Definition parseTextLine (line : string) (patterns : list textPattern)
    : M LogEntry :=
  let line := TrimSpace line in
  if String.eqb line EmptyString then fail ErrEmptyLine
  else
    let entry := mkLogEntry zeroTime "INFO" line ∅ in
    let entry := tryPatterns patterns line entry in
    if IsZero (Timestamp entry) then
      t <- now ;; ret (setTimestamp t entry)
    else ret entry.

(** The table of [initTextPatterns]: pattern, tsFormat, tsIndex,
    lvlIndex, msgIndex. *)
Definition patternTable : list (string * string * Z * Z * Z) :=
  [ ("^(\w{3}\s+\d{1,2}\s+\d{2}:\d{2}:\d{2})\s+\S+\s+\S+:\s+\[?(\w+)\]?\s+(.*)$",
     "Jan 02 15:04:05", 1, LevelIndex, MessageIndex);
    ("^(\d{4}-\d{2}-\d{2}\s+\d{2}:\d{2}:\d{2})\s+\[(\w+)\]\s+(.*)$",
     "2006-01-02 15:04:05", 1, LevelIndex, MessageIndex);
    ("^(\d{4}-\d{2}-\d{2}T\d{2}:\d{2}:\d{2}\.\d{3}Z?)\s+\[?(\w+)\]?\s+(.*)$",
     RFC3339, 1, LevelIndex, MessageIndex);
    ("^\[(\w+)\]\s+(.*)$", EmptyString, 0, 1, MessageIndexAlt) ].

(** [for _, pt := range patterns]: a pattern that does not compile is
    skipped. *)
Fixpoint compilePatterns (table : list (string * string * Z * Z * Z))
    (textPatterns : list textPattern) : list textPattern :=
  match table with
  | [] => textPatterns
  | (pattern, tsf, tsi, lvli, msgi) :: rest =>
      match regexp_Compile pattern with
      | None => compilePatterns rest textPatterns
      | Some re =>
          compilePatterns rest (textPatterns ++ [mkPattern re tsf tsi lvli msgi])
      end
  end.

(** text.go:84, [initTextPatterns] *)
Definition initTextPatterns : list textPattern :=
  compilePatterns patternTable [].

(** text.go:19, [parseText] *)
Definition parseText (lines : list string) : M (list LogEntry) :=
  let patterns := initTextPatterns in
  forLines (λ line, parseTextLine line patterns) lines [].

End Parsers.

(** ** The detector and the parser facade *)

Section Facade.
Context `{RT : GoRuntime}.

(** unnamed/part_000:351, [isJSON] *)
Definition isJSON (line : string) : bool :=
  let line := TrimSpace line in
  if negb (HasPrefix line "{") || negb (HasSuffix line "}") then false
  else
    match json_Unmarshal line with
    | inr _ => true
    | inl _ => false
    end.

(** unnamed/part_000:364, [isLogfmt] *)
Definition isLogfmt (line : string) : bool :=
  Contains line "="
  && (Contains line "level="
      || Contains line "msg="
      || Contains line "time="
      || Contains line "timestamp=").

(** [scores[f]], zero for an absent key, and [scores[f]++]. *)
Definition score (scores : gmap Z Z) (f : Format) : Z :=
  default 0 (scores !! f).
Definition incr (f : Format) (scores : gmap Z Z) : gmap Z Z :=
  <[f := score scores f + 1]> scores.

(** The body of the loop of [detectFormat]. *)
Definition scoreSample (scores : gmap Z Z) (sample : string) : gmap Z Z :=
  let scores := if isJSON sample then incr FormatJSON scores else scores in
  let scores := if isLogfmt sample then incr FormatLogfmt scores else scores in
  incr FormatText scores.

(** unnamed/part_000:312, [detectFormat] *)
Definition detectFormat (samples : list string) : Format :=
  if (length samples =? 0)%nat then FormatText
  else
    let sampleSize := 10%nat in
    let sampleSize :=
      if (length samples <? sampleSize)%nat then length samples else sampleSize in
    let scores := foldl scoreSample ∅ (take sampleSize samples) in
    if (score scores FormatLogfmt <? score scores FormatJSON)
       && (Z.quot (score scores FormatText) 2 <? score scores FormatJSON)
    then FormatJSON
    else if Z.quot (score scores FormatText) 2 <? score scores FormatLogfmt
    then FormatLogfmt
    else FormatText.

(** types.go:133, [parser]; the detector is an empty struct. *)
Record parser : Type := mkParser { format : Format }.

(** types.go:139, [New] and [NewWithFormat] *)
Definition New : parser := mkParser FormatAuto.
Definition NewWithFormat (format : Format) : parser := mkParser format.

(** types.go:192, [parseLines] *)
Definition parseLines (p : parser) (lines : list string) : M (list LogEntry) :=
  if (length lines =? 0)%nat then ret []
  else
    let format := format p in
    let format :=
      if format =? FormatAuto then detectFormat lines else format in
    if format =? FormatAuto then fail ErrAutoDetection
    else if format =? FormatJSON then parseJSON lines
    else if format =? FormatLogfmt then parseLogfmt lines
    else if format =? FormatText then parseText lines
    else parseText lines.

(** The loop of [Parse] and of [ParseString]: trimmed lines that are not
    empty. *)
Fixpoint cleanLines (lines : list string) (clean : list string) : list string :=
  match lines with
  | [] => clean
  | line :: rest =>
      let line := TrimSpace line in
      if negb (String.eqb line EmptyString) then cleanLines rest (clean ++ [line])
      else cleanLines rest clean
  end.

(** types.go:176, [ParseString] *)
Definition ParseString (p : parser) (s : string) : M (list LogEntry) :=
  let lines := Split s newline in
  parseLines p (cleanLines lines []).

(** types.go:155, [Parse] *)
Definition Parse (p : parser) (r : Reader) : M (list LogEntry) :=
  let '(texts, err) := scanLines r in
  let lines := cleanLines texts [] in
  match err with
  | Some cause => fail (ErrScanner cause)
  | None => parseLines p lines
  end.

End Facade.

(** ** Vocabulary of the statements *)

(** The text a key holds after the bytes of [w] went through
    [key += string(ch)]. *)
Fixpoint keyText (w : string) : string :=
  match w with
  | EmptyString => EmptyString
  | String c w' => string_of_byte c +:+ keyText w'
  end.

(** [line[i-1]] after the bytes of [s], which [prev] preceded. *)
Fixpoint lastByte (prev : option ascii) (s : string) : option ascii :=
  match s with
  | EmptyString => prev
  | String c s' => lastByte (Some c) s'
  end.

(** Every [dquote] of [v] comes right after a backslash, [prev] being the
    byte before [v]. *)
Fixpoint quotesEscaped (prev : ascii) (v : string) : bool :=
  match v with
  | EmptyString => true
  | String c v' =>
      (negb (Ascii.eqb c dquote) || Ascii.eqb prev backslash) && quotesEscaped c v'
  end.

(** The text between an opening and a closing quote of a properly quoted
    value: its quotes are escaped and the closing quote is not, that is,
    no backslash stands right before it. *)
Definition properlyQuoted (v : string) : bool :=
  quotesEscaped dquote v
  && match lastByte None v with
     | Some c => negb (Ascii.eqb c backslash)
     | None => true
     end.

Definition escapedQuote : string := String backslash (String dquote EmptyString).

(** While a key is read nothing has been written to the value and no
    quote is open. *)
Definition keyInv (st : TokState) : Prop :=
  inKey st = true → value st = EmptyString ∧ inQuotes st = false.

(** [k="v"] *)
Definition quotedPair (k v : string) : string :=
  k +:+ "=" +:+ String dquote (v +:+ String dquote EmptyString).

(** The tokenizer about to read a key, [P] emitted so far. *)
Definition atKey (P : gmap string Value) : TokState :=
  mkTok P EmptyString EmptyString false true.

(** The number of elements of [l] that [f] accepts, as a Go [int]. *)
Definition countIf {A} (f : A → bool) (l : list A) : Z :=
  Z.of_nat (length (List.filter f l)).

(** The five canonical levels, and the names [ParseLevel] knows. *)
Definition canonicalLevels : list string :=
  ["DEBUG"; "INFO"; "WARN"; "ERROR"; "FATAL"].
Definition knownLevelNames : list string :=
  ["DEBUG"; "DBG"; "INFO"; "INF"; "WARN"; "WARNING"; "WRN"; "ERROR"; "ERR";
   "FATAL"; "FTL"].

Section Vocabulary.
Context `{RT : GoRuntime}.

Definition keyOf {A} (r : option (string * A)) : list string :=
  match r with
  | Some (k, _) => [k]
  | None => []
  end.

(** The keys the three extractions of [parseJSONLine] delete from the
    decoded map [raw]. *)
Definition liftedKeys (raw : gmap string Value) : list string :=
  keyOf (firstTimestamp jsonTimestampKeys raw)
  ++ keyOf (firstString jsonLevelKeys raw)
  ++ keyOf (firstString jsonMessageKeys raw).

(** The timestamp a matching pattern extracts, zero when it has no
    timestamp group, no layout, or the group does not parse. *)
Definition patternTime (p : textPattern) (m : list string) : Time :=
  if inMatches (tsIndex p) m && negb (String.eqb (tsFormat p) EmptyString) then
    default zeroTime (time_Parse (tsFormat p) (matchAt m (tsIndex p)))
  else zeroTime.

Definition patternShape (p : textPattern) : string * Z * Z * Z :=
  (tsFormat p, tsIndex p, lvlIndex p, msgIndex p).

End Vocabulary.

(** ** Further vocabulary: rendered pairs, key bytes *)

Fixpoint allBytes (P : ascii → bool) (s : string) : bool :=
  match s with
  | EmptyString => true
  | String c s' => P c && allBytes P s'
  end.

(** A value that needs no quotes: no space and no quote in it. *)
Definition plainValue (v : string) : bool :=
  allBytes (λ c, negb (Ascii.eqb c " "%char) && negb (Ascii.eqb c dquote)) v.

(** A pair as a line holds it: [k=v], or [k="v"] when [quoted]. *)
Record Pair : Type := mkPair { pairKey : string; pairValue : string; quoted : bool }.

Definition renderPair (p : Pair) : string :=
  if quoted p then quotedPair (pairKey p) (pairValue p)
  else pairKey p +:+ "=" +:+ pairValue p.

(** Pairs separated by one space. *)
Fixpoint renderPairs (ps : list Pair) : string :=
  match ps with
  | [] => EmptyString
  | [p] => renderPair p
  | p :: rest => renderPair p +:+ " " +:+ renderPairs rest
  end.

(** The key is not empty and holds no [=]; the value is properly quoted
    when quoted and needs no quotes otherwise. *)
Definition wellFormedPair (p : Pair) : Prop :=
  pairKey p ≠ EmptyString
  ∧ Contains (pairKey p) "=" = false
  ∧ (if quoted p then properlyQuoted (pairValue p) else plainValue (pairValue p)) = true.

(** [pairs[key] = value] for each pair in turn. *)
Definition storePairs (P : gmap string Value) (ps : list Pair) : gmap string Value :=
  foldl (λ m p, <[keyText (pairKey p) := VString (pairValue p)]> m) P ps.

(** The first byte [string(ch)] encoded at the head of [s], and the rest. *)
Definition decodeHead (s : string) : option (ascii * string) :=
  match s with
  | EmptyString => None
  | String a rest =>
      if byte_val a <? 128 then Some (a, rest)
      else
        match rest with
        | EmptyString => None
        | String b rest' =>
            Some (byte_of (Z.lor (Z.shiftl (Z.land (byte_val a) 3) 6)
                             (Z.land (byte_val b) 63)), rest')
        end
  end.

(** Every key stored is not empty and every value is a string. *)
Definition pairsOK (P : gmap string Value) : Prop :=
  ∀ (k : string) (v : Value), P !! k = Some v → k ≠ EmptyString ∧ ∃ s, v = VString s.

(** types.go:47, [Format.String] *)
Definition Format_String (f : Format) : string :=
  if f =? FormatJSON then "json"
  else if f =? FormatLogfmt then "logfmt"
  else if f =? FormatText then "text"
  else if f =? FormatAuto then "auto"
  else "unknown".

(** The keys [extractLogfmtTimestamp] and [extractLogfmtMessage] range
    over, and all the keys the logfmt extraction looks at. *)
Definition logfmtTimestampKeys : list string := ["timestamp"; "time"; "ts"].
Definition logfmtMessageKeys : list string := ["msg"; "message"].
Definition logfmtKeys : list string :=
  ["timestamp"; "time"; "ts"; "level"; "msg"; "message"].

Section LogfmtVocabulary.
Context `{RT : GoRuntime}.

(** The keys the three extractions of [parseLogfmtLine] delete from the
    pairs of the line. *)
Definition logfmtLiftedKeys (P : gmap string Value) : list string :=
  keyOf (firstTimestamp logfmtTimestampKeys P)
  ++ match P !! "level" with
     | Some (VString _) => ["level"]
     | _ => []
     end
  ++ keyOf (firstString logfmtMessageKeys P).

End LogfmtVocabulary.

Section BatchVocabulary.
Context `{RT : GoRuntime}.

(** The format [parseLines] works with: the detected one for
    [FormatAuto]. *)
Definition effectiveFormat (p : parser) (lines : list string) : Format :=
  if format p =? FormatAuto then detectFormat lines else format p.

(** The line parser [parseLines] runs over the lines for a format that
    is not [FormatAuto]. *)
Definition lineParser (f : Format) : string → M LogEntry :=
  if f =? FormatJSON then parseJSONLine
  else if f =? FormatLogfmt then parseLogfmtLine
  else λ line, parseTextLine line initTextPatterns.

(** Two records that differ at most in a timestamp read from the clock. *)
Definition sameButClock (e1 e2 : LogEntry) : Prop :=
  Level e1 = Level e2 ∧ Message e1 = Message e2 ∧ Fields e1 = Fields e2
  ∧ (Timestamp e1 = Timestamp e2
     ∨ ∃ i j : nat, Timestamp e1 = time_Now i ∧ Timestamp e2 = time_Now j).

(** Two runs that end alike: the same error, or records that differ at
    most in a timestamp read from the clock. *)
Definition sameOutcome (r1 r2 : Result (list LogEntry)) : Prop :=
  match r1, r2 with
  | Ok a, Ok b => Forall2 sameButClock a b
  | Err x, Err y => x = y
  | _, _ => False
  end.

(** [then]: the records of the first run followed by those of the second,
    which starts from the clock the first one leaves. *)
Definition andThen (m1 m2 : M (list LogEntry)) : M (list LogEntry) :=
  λ n, match m1 n with
       | (Ok e1, n1) =>
           match m2 n1 with
           | (Ok e2, n2) => (Ok (e1 ++ e2), n2)
           | (Err e, n2) => (Err e, n2)
           end
       | (Err e, n1) => (Err e, n1)
       end.

(** Two runs of a line parser that end alike. *)
Definition sameLineOutcome (r1 r2 : Result LogEntry) : Prop :=
  match r1, r2 with
  | Ok a, Ok b => sameButClock a b
  | Err x, Err y => x = y
  | _, _ => False
  end.

End BatchVocabulary.

(** ** A runtime for examples

    The answers of the Go runtime on the lines the examples below use,
    as tables; on ASCII input the Unicode paths are never taken, and a
    reader is given by what the scanner reads from it. *)

Module Example.

Definition q : string := String dquote EmptyString.

(** [{"timestamp":"2024-01-02T15:04:05Z","level":"ERROR","message":"Database connection failed","service":"api"}] *)
Definition jsonLine : string :=
  "{" +:+ q +:+ "timestamp" +:+ q +:+ ":" +:+ q +:+ "2024-01-02T15:04:05Z" +:+ q
  +:+ "," +:+ q +:+ "level" +:+ q +:+ ":" +:+ q +:+ "ERROR" +:+ q
  +:+ "," +:+ q +:+ "message" +:+ q +:+ ":" +:+ q +:+ "Database connection failed" +:+ q
  +:+ "," +:+ q +:+ "service" +:+ q +:+ ":" +:+ q +:+ "api" +:+ q +:+ "}".

Definition jsonObject : gmap string Value :=
  <["timestamp" := VString "2024-01-02T15:04:05Z"]>
    (<["level" := VString "ERROR"]>
       (<["message" := VString "Database connection failed"]>
          {["service" := VString "api"]})).

(** 2024-01-02 15:04:05 UTC is 1704207845 seconds after the Unix epoch. *)
Definition jan2 : Time := mkTime (1704207845 + unixToInternal) 0 UTC.

Definition parseTable (layout v : string) : option Time :=
  if String.eqb v "2024-01-02T15:04:05Z"
     && (String.eqb layout RFC3339 || String.eqb layout RFC3339Nano)
  then Some jan2
  else if String.eqb v "2024-01-02 15:04:05"
          && String.eqb layout "2006-01-02 15:04:05"
  then Some jan2
  else None.

Definition unmarshalTable (line : string) : string + gmap string Value :=
  if String.eqb line jsonLine then inr jsonObject
  else inl "invalid character 'i' looking for beginning of object key string".

Definition bracketPattern : string := "^\[(\w+)\]\s+(.*)$".
Definition dateTimePattern : string :=
  "^(\d{4}-\d{2}-\d{2}\s+\d{2}:\d{2}:\d{2})\s+\[(\w+)\]\s+(.*)$".

Definition submatchTable (re line : string) : option (list string) :=
  if String.eqb re bracketPattern && String.eqb line "[INFO] Starting application"
  then Some ["[INFO] Starting application"; "INFO"; "Starting application"]
  else if String.eqb re dateTimePattern
          && String.eqb line "2024-01-02 15:04:05 [ERROR] Failed to connect to database"
  then Some ["2024-01-02 15:04:05 [ERROR] Failed to connect to database";
             "2024-01-02 15:04:05"; "ERROR"; "Failed to connect to database"]
  else None.

(** The clock reads one second later at every call, from 2024-01-03. *)
Definition clock (n : nat) : Time :=
  mkTime (1704240000 + unixToInternal + Z.of_nat n) 0 LocalZone.

#[export] Instance runtime : GoRuntime := {|
  unicode_ToUpper := λ s, s;
  unicode_TrimSpace := λ s, s;
  int64_overflow := λ _, - 2 ^ 63;
  time_Parse := parseTable;
  time_Now := clock;
  json_Unmarshal := unmarshalTable;
  Regexp := string;
  regexp_Compile := Some;
  FindStringSubmatch := submatchTable;
  Reader := list string * option string;
  scanLines := λ r, r;
|}.

End Example.

(** * Properties *)

(** ** Strings *)

Lemma app_cons (c : ascii) (s t : string) :
  String c s +:+ t = String c (s +:+ t).
Proof. reflexivity. Qed.

Lemma app_empty_r (s : string) : s +:+ EmptyString = s.
Proof. induction s as [|c s IH]; [reflexivity|]. rewrite app_cons, IH. reflexivity. Qed.

Lemma app_assoc_str (s t u : string) : (s +:+ t) +:+ u = s +:+ (t +:+ u).
Proof.
  induction s as [|c s IH]; [reflexivity|].
  rewrite !app_cons, IH. reflexivity.
Qed.

Lemma snoc_app (s : string) (c : ascii) : snoc s c = s +:+ String c EmptyString.
Proof. induction s as [|a s IH]; [reflexivity|]. simpl. rewrite IH. reflexivity. Qed.

Lemma app_length_str (s t : string) :
  String.length (s +:+ t) = (String.length s + String.length t)%nat.
Proof. induction s as [|c s IH]; [reflexivity|]. rewrite app_cons. simpl. lia. Qed.

Lemma eqb_empty_false (s : string) :
  s ≠ EmptyString → String.eqb s EmptyString = false.
Proof. intros Hs. apply String.eqb_neq. exact Hs. Qed.

(** [HasPrefix] byte by byte. *)
Lemma HasPrefix_empty (s : string) : HasPrefix s EmptyString = true.
Proof. destruct s; reflexivity. Qed.

Lemma HasPrefix_cons (a b : ascii) (s p : string) :
  HasPrefix (String a s) (String b p) = Ascii.eqb a b && HasPrefix s p.
Proof.
  unfold HasPrefix. simpl.
  destruct (String.length p <=? String.length s)%nat, (Ascii.eqb a b); reflexivity.
Qed.

Lemma HasPrefix_spec (s p : string) :
  HasPrefix s p = true ↔ ∃ t, s = p +:+ t.
Proof.
  revert s. induction p as [|b p IH]; intros s.
  - rewrite HasPrefix_empty. split; [intros _; exists s; reflexivity | reflexivity].
  - destruct s as [|a s].
    + split; [discriminate | intros [t Ht]; discriminate].
    + rewrite HasPrefix_cons, andb_true_iff, Ascii.eqb_eq, IH.
      split.
      * intros [-> [t ->]]. exists t. reflexivity.
      * intros [t Ht]. rewrite app_cons in Ht. injection Ht as -> ->. eauto.
Qed.

Lemma substring_app_r (a b : string) :
  String.substring (String.length a) (String.length b) (a +:+ b) = b.
Proof.
  induction a as [|c a IH]; [|exact IH].
  change (EmptyString +:+ b) with b.
  simpl. induction b as [|c b IH]; [reflexivity|]. simpl. rewrite IH. reflexivity.
Qed.

Lemma substring_split (s : string) (n : nat) :
  (n ≤ String.length s)%nat →
  s = String.substring 0 n s +:+ String.substring n (String.length s - n) s.
Proof.
  revert n. induction s as [|c s IH]; intros n Hn.
  - destruct n; [reflexivity | simpl in Hn; lia].
  - destruct n as [|n].
    + change (String.substring 0 0 (String c s)) with EmptyString.
      change (EmptyString +:+ ?x) with x.
      rewrite Nat.sub_0_r. clear.
      change (String c s = String c (String.substring 0 (String.length s) s)).
      f_equal. induction s as [|a s IH]; [reflexivity|]. simpl. rewrite <- IH. reflexivity.
    + simpl in Hn. simpl. rewrite app_cons. f_equal. apply IH. lia.
Qed.

Lemma HasSuffix_spec (s suf : string) :
  HasSuffix s suf = true ↔ ∃ a, s = a +:+ suf.
Proof.
  unfold HasSuffix. rewrite andb_true_iff, Nat.leb_le, String.eqb_eq. split.
  - intros [Hlen Hsub].
    exists (String.substring 0 (String.length s - String.length suf) s).
    pose proof (substring_split s (String.length s - String.length suf)) as Hs.
    replace (String.length s - (String.length s - String.length suf))%nat
      with (String.length suf) in Hs by lia.
    rewrite Hsub in Hs. apply Hs. lia.
  - intros [a ->]. rewrite app_length_str. split; [lia|].
    replace (String.length a + String.length suf - String.length suf)%nat
      with (String.length a) by lia.
    apply substring_app_r.
Qed.

(** [strings.Contains]: the string has the substring somewhere. *)
Lemma Contains_spec (s sub : string) :
  Contains s sub = true ↔ ∃ a b, s = a +:+ sub +:+ b.
Proof.
  induction s as [|c s IH].
  - simpl. rewrite orb_false_r, HasPrefix_spec. split.
    + intros [t Ht]. exists EmptyString, t. exact Ht.
    + intros [a [b Hab]]. destruct a; [eauto | discriminate].
  - simpl. rewrite orb_true_iff, HasPrefix_spec, IH. split.
    + intros [[t Ht] | [a [b Hab]]].
      * exists EmptyString, t. exact Ht.
      * exists (String c a), b. rewrite app_cons, Hab. reflexivity.
    + intros [a [b Hab]]. destruct a as [|c' a].
      * left. exists b. exact Hab.
      * right. rewrite app_cons in Hab. injection Hab as _ ->. eauto.
Qed.

(** ** The tokenizer *)

Lemma tokLoop_app (a b : string) (prev : option ascii) (st : TokState) :
  tokLoop prev (a +:+ b) st = tokLoop (lastByte prev a) b (tokLoop prev a st).
Proof.
  revert prev st. induction a as [|c a IH]; intros prev st; [reflexivity|].
  rewrite app_cons. simpl. apply IH.
Qed.

Lemma lastByte_app (a b : string) (prev : option ascii) :
  lastByte prev (a +:+ b) = lastByte (lastByte prev a) b.
Proof.
  revert prev. induction a as [|c a IH]; intros prev; [reflexivity|].
  rewrite app_cons. simpl. apply IH.
Qed.

Lemma Contains_eq_cons (c : ascii) (w : string) :
  Contains (String c w) "=" = false →
  Ascii.eqb c "="%char = false ∧ Contains w "=" = false.
Proof.
  simpl. rewrite HasPrefix_cons, HasPrefix_empty, andb_true_r.
  intros H. apply orb_false_iff in H. exact H.
Qed.

(** Reading a key: every byte but [=] is appended to it, re-encoded. *)
Lemma tokLoop_key (w : string) (prev : option ascii) (st : TokState) :
  inKey st = true → inQuotes st = false → Contains w "=" = false →
  tokLoop prev w st
  = mkTok (pairs st) (key st +:+ keyText w) (value st) false true.
Proof.
  revert prev st. induction w as [|c w IH]; intros prev [P k v iq ik]; simpl;
    intros -> -> Hw.
  - rewrite app_empty_r. reflexivity.
  - apply Contains_eq_cons in Hw as [Hc Hw].
    unfold tokStep; simpl. rewrite Hc. rewrite !andb_false_r. simpl.
    rewrite IH by (reflexivity || exact Hw). simpl.
    rewrite app_assoc_str. reflexivity.
Qed.

(** Reading a quoted value: every byte is appended to the value, an
    escaped quote too, and the quoted state stays. *)
Lemma tokLoop_quoted (v : string) (prev : ascii) (st : TokState) :
  inKey st = false → inQuotes st = true → quotesEscaped prev v = true →
  tokLoop (Some prev) v st
  = mkTok (pairs st) (key st) (value st +:+ v) true false.
Proof.
  revert prev st. induction v as [|c v IH]; intros prev [P k val iq ik]; simpl;
    intros -> -> Hv.
  - rewrite app_empty_r. reflexivity.
  - apply andb_true_iff in Hv as [Hc Hv].
    assert (tokStep (Some prev) c (mkTok P k val true false)
            = mkTok P k (snoc val c) true false) as ->.
    { unfold tokStep; simpl. rewrite !andb_false_r. simpl.
      destruct (Ascii.eqb c dquote); simpl in *; [|reflexivity].
      rewrite Hc. reflexivity. }
    rewrite IH by (reflexivity || exact Hv). simpl.
    rewrite snoc_app, app_assoc_str. reflexivity.
Qed.

Lemma keyText_nonempty (k : string) : k ≠ EmptyString → keyText k ≠ EmptyString.
Proof.
  destruct k as [|c k]; [congruence|]. intros _. simpl.
  unfold string_of_byte. destruct (byte_val c <? 128); discriminate.
Qed.

Lemma keyText_ascii (k : string) : isASCII k = true → keyText k = k.
Proof.
  induction k as [|c k IH]; [reflexivity|]. simpl.
  intros H. apply andb_true_iff in H as [Hc Hk].
  unfold string_of_byte. unfold RuneSelf in Hc. rewrite Hc, IH by exact Hk.
  reflexivity.
Qed.

Lemma lastByte_Some (v : string) (c : ascii) :
  ∃ d, lastByte (Some c) v = Some d.
Proof. revert c. induction v as [|a v IH]; intros c; simpl; eauto. Qed.

Lemma properlyQuoted_last (v : string) :
  properlyQuoted v = true →
  quotesEscaped dquote v = true
  ∧ ∃ c, lastByte (Some dquote) v = Some c ∧ Ascii.eqb c backslash = false.
Proof.
  unfold properlyQuoted. intros H. apply andb_true_iff in H as [He Hl].
  split; [exact He|].
  destruct v as [|c v]; simpl in *.
  - exists dquote. split; reflexivity.
  - destruct (lastByte_Some v c) as [d Hd]. rewrite Hd in Hl |- *.
    exists d. split; [reflexivity|]. apply negb_true_iff. exact Hl.
Qed.

(** A whole pair [k="v"] read from the start of a key: the key holds [k],
    the value exactly [v], and the quoted state is left. *)
Lemma tokLoop_quotedPair (k v : string) (prev : option ascii) (P : gmap string Value) :
  Contains k "=" = false → properlyQuoted v = true →
  tokLoop prev (quotedPair k v) (atKey P) = mkTok P (keyText k) v false false
  ∧ lastByte prev (quotedPair k v) = Some dquote.
Proof.
  intros Hk Hv. apply properlyQuoted_last in Hv as [He [c [Hl Hc]]].
  unfold quotedPair. split.
  - rewrite tokLoop_app.
    rewrite (tokLoop_key k prev (atKey P)) by (reflexivity || exact Hk).
    cbn [pairs key value atKey]. change (EmptyString +:+ keyText k) with (keyText k).
    rewrite app_cons. change (EmptyString +:+ ?s) with s.
    cbn [tokLoop].
    assert (∀ o, tokStep o "="%char (mkTok P (keyText k) EmptyString false true)
                 = mkTok P (keyText k) EmptyString false false) as -> by reflexivity.
    assert (tokStep (Some "="%char) dquote (mkTok P (keyText k) EmptyString false false)
            = mkTok P (keyText k) EmptyString true false) as -> by reflexivity.
    rewrite tokLoop_app.
    rewrite (tokLoop_quoted v dquote) by (reflexivity || exact He).
    cbn [pairs key value]. change (EmptyString +:+ v) with v.
    rewrite Hl. cbn [tokLoop]. unfold tokStep. cbn [inKey inQuotes pairs key value].
    rewrite Hc. reflexivity.
  - rewrite lastByte_app. rewrite app_cons. cbn [lastByte].
    change (EmptyString +:+ ?s) with s. cbn [lastByte].
    rewrite lastByte_app. reflexivity.
Qed.

Lemma tokStep_keyInv (prev : option ascii) (ch : ascii) (st : TokState) :
  keyInv st → keyInv (tokStep prev ch st).
Proof.
  destruct st as [P k v iq ik]. unfold keyInv, tokStep; simpl. intros Hst.
  destruct ik; simpl.
  - destruct (Hst eq_refl) as [-> ->]. rewrite !andb_false_r, !andb_true_r.
    destruct (Ascii.eqb ch "="); simpl; [discriminate | auto].
  - rewrite !andb_false_r, !andb_true_r. simpl.
    destruct (Ascii.eqb ch dquote); simpl.
    + destruct prev as [p|]; [destruct (Ascii.eqb p backslash)|]; simpl; discriminate.
    + destruct (Ascii.eqb ch " " && negb iq) eqn:Hsp; simpl; [|discriminate].
      apply andb_true_iff in Hsp as [_ Hq]. apply negb_true_iff in Hq. auto.
Qed.

Lemma tokLoop_keyInv (s : string) (prev : option ascii) (st : TokState) :
  keyInv st → keyInv (tokLoop prev s st).
Proof.
  revert prev st. induction s as [|c s IH]; intros prev st Hst; [exact Hst|].
  simpl. apply IH, tokStep_keyInv, Hst.
Qed.

Lemma tokInit_keyInv : keyInv tokInit.
Proof. intros _. split; reflexivity. Qed.

(** C3 (as amended): at the end of the line a pending key that is not empty
    is emitted with what the value holds, the empty string when no [=] was
    consumed for it; only an empty pending key is dropped.  So a line that
    ends in a word without [=] yields that word as a key with an empty
    value. *)
Theorem pending_key_emitted :
  (∀ line : string,
     let st := tokLoop None line tokInit in
     inKey st = true → key st ≠ EmptyString →
     parseLogfmtPairs line !! key st = Some (VString EmptyString))
  ∧ (∀ (pre w : string) (P : gmap string Value),
       tokLoop None pre tokInit = atKey P →
       w ≠ EmptyString → Contains w "=" = false →
       parseLogfmtPairs (pre +:+ w) = <[keyText w := VString EmptyString]> P)
  ∧ (∀ line : string,
       key (tokLoop None line tokInit) = EmptyString →
       parseLogfmtPairs line = pairs (tokLoop None line tokInit)).
Proof.
  split; [|split].
  - intros line st Hk Hne. unfold parseLogfmtPairs, emit. fold st.
    rewrite eqb_empty_false by exact Hne.
    destruct (tokLoop_keyInv line None tokInit tokInit_keyInv Hk) as [Hv _].
    fold st in Hv. rewrite Hv. apply lookup_insert_eq.
  - intros pre w P Hpre Hw Hnoeq. unfold parseLogfmtPairs.
    rewrite tokLoop_app, Hpre.
    rewrite tokLoop_key by (reflexivity || exact Hnoeq).
    unfold emit; simpl. change (EmptyString +:+ keyText w) with (keyText w).
    rewrite eqb_empty_false by (apply keyText_nonempty, Hw). reflexivity.
  - intros line Hk. unfold parseLogfmtPairs, emit. rewrite Hk. reflexivity.
Qed.

(** C7: a pair [k="v"] whose value is properly quoted (every quote inside
    [v] comes right after a backslash, the closing quote does not) yields
    the value [v] byte for byte, spaces and escaped quotes included, at the
    end of a line as well as before a space and further pairs; the
    tokenizer is a total function and raises nothing. *)
Theorem quoted_value_round_trips (k v : string) :
  k ≠ EmptyString → Contains k "=" = false → properlyQuoted v = true →
  parseLogfmtPairs (quotedPair k v) = {[ keyText k := VString v ]}
  ∧ (∀ (pre : string) (P : gmap string Value),
       tokLoop None pre tokInit = atKey P →
       parseLogfmtPairs (pre +:+ quotedPair k v) = <[keyText k := VString v]> P
       ∧ ∀ rest : string,
           parseLogfmtPairs (pre +:+ quotedPair k v +:+ " " +:+ rest)
           = emit (tokLoop (Some " "%char) rest
                     (atKey (<[keyText k := VString v]> P))))
  ∧ (isASCII k = true → keyText k = k).
Proof.
  intros Hk Hnoeq Hv.
  assert (∀ prev P, emit (tokLoop prev (quotedPair k v) (atKey P))
                    = <[keyText k := VString v]> P) as Hend.
  { intros prev P.
    destruct (tokLoop_quotedPair k v prev P Hnoeq Hv) as [-> _].
    unfold emit; simpl.
    rewrite eqb_empty_false by (apply keyText_nonempty, Hk). reflexivity. }
  split; [|split].
  - unfold parseLogfmtPairs. apply (Hend None ∅).
  - intros pre P Hpre. split.
    + unfold parseLogfmtPairs. rewrite tokLoop_app, Hpre. apply Hend.
    + intros rest. unfold parseLogfmtPairs.
      rewrite tokLoop_app, Hpre, tokLoop_app.
      destruct (tokLoop_quotedPair k v (lastByte None pre) P Hnoeq Hv) as [-> ->].
      rewrite app_cons. change (EmptyString +:+ rest) with rest.
      cbn [tokLoop]. f_equal. f_equal.
      unfold tokStep, emit, atKey; simpl.
      rewrite eqb_empty_false by (apply keyText_nonempty, Hk). reflexivity.
  - apply keyText_ascii.
Qed.

(** C10: in the quoted state a backslash followed by a quote leaves the
    state quoted and appends both bytes to the value; nothing is unescaped,
    so a properly quoted value with an escaped quote inside is emitted with
    the backslash and the quote, and the value of the pair [msg] whose
    quoted text is a, space, backslash, quote, b, backslash, quote holds
    both of its backslash-quote sequences. *)
Theorem escaped_quote_kept :
  (∀ (prev : option ascii) (st : TokState),
     inKey st = false → inQuotes st = true →
     tokLoop prev escapedQuote st
     = mkTok (pairs st) (key st) (value st +:+ escapedQuote) true false)
  ∧ (∀ k a b : string,
       k ≠ EmptyString → Contains k "=" = false →
       properlyQuoted (a +:+ escapedQuote +:+ b) = true →
       parseLogfmtPairs (quotedPair k (a +:+ escapedQuote +:+ b))
       = {[ keyText k := VString (a +:+ escapedQuote +:+ b) ]})
  ∧ parseLogfmtPairs
      (quotedPair "msg" ("a " +:+ escapedQuote +:+ "b" +:+ escapedQuote))
    = {[ "msg" := VString ("a " +:+ escapedQuote +:+ "b" +:+ escapedQuote) ]}.
Proof.
  split; [|split].
  - intros prev [P k v iq ik]; simpl. intros -> ->.
    unfold escapedQuote. cbn [tokLoop]. unfold tokStep; simpl.
    rewrite !snoc_app, app_assoc_str. reflexivity.
  - intros k a b Hk Hnoeq Hv. unfold parseLogfmtPairs.
    destruct (tokLoop_quotedPair k _ None ∅ Hnoeq Hv) as [Hrun _].
    unfold atKey in Hrun. unfold tokInit. rewrite Hrun.
    unfold emit; simpl.
    rewrite eqb_empty_false by (apply keyText_nonempty, Hk). reflexivity.
  - vm_compute. reflexivity.
Qed.

Section NormalizerFacts.
Context `{RT : GoRuntime}.

Lemma ToUpper_ascii (s : string) :
  isASCII s = true → ToUpper s = mapBytes asciiUpper s.
Proof. intros H. unfold ToUpper. rewrite H. reflexivity. Qed.

(** C8: [ParseLevel] uppercases its argument and maps DEBUG and DBG to
    DEBUG, INFO and INF to INFO, WARN, WARNING and WRN to WARN, ERROR and
    ERR to ERROR, FATAL and FTL to FATAL, and every other string, the empty
    one included, to INFO; its result is always one of the five canonical
    levels, and each canonical level is mapped to itself. *)
Theorem ParseLevel_table (s : string) :
  let u := ToUpper s in
  (u = "DEBUG" ∨ u = "DBG" → ParseLevel s = "DEBUG")
  ∧ (u = "INFO" ∨ u = "INF" → ParseLevel s = "INFO")
  ∧ (u = "WARN" ∨ u = "WARNING" ∨ u = "WRN" → ParseLevel s = "WARN")
  ∧ (u = "ERROR" ∨ u = "ERR" → ParseLevel s = "ERROR")
  ∧ (u = "FATAL" ∨ u = "FTL" → ParseLevel s = "FATAL")
  ∧ (u ∉ knownLevelNames → ParseLevel s = "INFO")
  ∧ ParseLevel s ∈ canonicalLevels
  ∧ (isASCII s = true → u = mapBytes asciiUpper s)
  ∧ ParseLevel EmptyString = "INFO"
  ∧ Forall (λ l, ParseLevel l = l) canonicalLevels.
Proof.
  cbv zeta. unfold ParseLevel, LevelInfo.
  repeat split.
  1-5: intros H; repeat destruct H as [H|H]; rewrite H; reflexivity.
  - intros H. unfold knownLevelNames in H.
    repeat (apply not_elem_of_cons in H as [?%String.eqb_neq H]).
    repeat match goal with H : String.eqb _ _ = false |- _ => rewrite H; clear H end.
    reflexivity.
  - unfold canonicalLevels.
    repeat match goal with
           | |- context [String.eqb ?a ?b] => destruct (String.eqb a b); simpl
           end; set_solver.
  - apply ToUpper_ascii.
  - unfold canonicalLevels. repeat constructor.
Qed.

Lemma tryFormats_Some (fs : list string) (v : string) (t : Time) :
  tryFormats fs v = Some t
  ↔ ∃ (i : nat) (layout : string),
      fs !! i = Some layout ∧ time_Parse layout v = Some t
      ∧ ∀ (j : nat) (l : string),
          (j < i)%nat → fs !! j = Some l → time_Parse l v = None.
Proof.
  induction fs as [|f fs IH]; simpl.
  - split; [discriminate | intros (i & l & Hi & _); destruct i; discriminate].
  - destruct (time_Parse f v) as [t'|] eqn:Hf.
    + split.
      * intros [= ->]. exists 0%nat, f. repeat split; [exact Hf|]. lia.
      * intros (i & l & Hi & Hl & Hmin). destruct i as [|i].
        -- injection Hi as ->. congruence.
        -- specialize (Hmin 0%nat f ltac:(lia) eq_refl). congruence.
    + rewrite IH. split.
      * intros (i & l & Hi & Hl & Hmin). exists (S i), l.
        repeat split; [exact Hi | exact Hl |].
        intros [|j] l' Hj Hl'; [injection Hl' as <-; exact Hf|].
        apply (Hmin j); [lia | exact Hl'].
      * intros (i & l & Hi & Hl & Hmin). destruct i as [|i].
        -- injection Hi as ->. congruence.
        -- exists i, l. repeat split; [exact Hi | exact Hl |].
           intros j l' Hj Hl'. apply (Hmin (S j)); [lia | exact Hl'].
Qed.

Lemma tryFormats_None (fs : list string) (v : string) :
  tryFormats fs v = None ↔ ∀ l : string, l ∈ fs → time_Parse l v = None.
Proof.
  induction fs as [|f fs IH]; simpl.
  - split; [intros _ l Hl; inversion Hl | reflexivity].
  - destruct (time_Parse f v) as [t'|] eqn:Hf.
    + split; [discriminate|]. intros H. rewrite H in Hf by left. discriminate.
    + rewrite IH. split.
      * intros H l Hl. apply elem_of_cons in Hl as [->|Hl]; auto.
      * intros H l Hl. apply H. right. exact Hl.
Qed.

(** C6: for a string [parseTimestamp] tries the five layouts in their
    fixed order (RFC3339, RFC3339 with nanoseconds, milliseconds with a
    literal Z, date and time with a space, the syslog form) and returns the
    instant of the first that parses; when none parses it returns a
    [ParseError] that carries the string.  A number is never refused: it is
    cut to whole seconds and read as a Unix time.  Every other value is
    refused with a [ParseError] that carries it. *)
Theorem parseTimestamp_cases :
  timestampFormats
  = [ "2006-01-02T15:04:05Z07:00"; "2006-01-02T15:04:05.999999999Z07:00";
      "2006-01-02T15:04:05.000Z"; "2006-01-02 15:04:05"; "Jan 02 15:04:05" ]
  ∧ (∀ (v : string) (t : Time),
       parseTimestamp (VString v) = Ok t
       ↔ ∃ (i : nat) (layout : string),
           timestampFormats !! i = Some layout ∧ time_Parse layout v = Some t
           ∧ ∀ (j : nat) (l : string),
               (j < i)%nat → timestampFormats !! j = Some l →
               time_Parse l v = None)
  ∧ (∀ v : string,
       (∀ l : string, l ∈ timestampFormats → time_Parse l v = None)
       ↔ parseTimestamp (VString v)
         = Err (ParseError "timestamp" (VString v) "unknown time format"))
  ∧ (∀ f : float,
       parseTimestamp (VNumber f)
       = Ok (mkTime (wrap64 (int64_of_float64 f + unixToInternal)) 0 LocalZone))
  ∧ int64_of_float64 1704207845.5%float = 1704207845
  ∧ int64_of_float64 (-1.5)%float = -1
  ∧ (∀ val : Value,
       match val with VString _ | VNumber _ => False | _ => True end →
       parseTimestamp val
       = Err (ParseError "timestamp" val "unsupported timestamp type")).
Proof.
  split; [reflexivity|]. split; [|split; [|split; [|split; [|split]]]].
  - intros v t. rewrite <- tryFormats_Some. unfold parseTimestamp.
    destruct (tryFormats timestampFormats v); split; congruence.
  - intros v. rewrite <- tryFormats_None. unfold parseTimestamp.
    destruct (tryFormats timestampFormats v); split; congruence.
  - intros f. reflexivity.
  - reflexivity.
  - reflexivity.
  - intros [] H; try contradiction; reflexivity.
Qed.

End NormalizerFacts.

Section DetectorFacts.
Context `{RT : GoRuntime}.

Lemma score_incr_eq (f : Format) (m : gmap Z Z) :
  score (incr f m) f = score m f + 1.
Proof. unfold score, incr. rewrite lookup_insert_eq. reflexivity. Qed.

Lemma score_incr_ne (f g : Format) (m : gmap Z Z) :
  f ≠ g → score (incr f m) g = score m g.
Proof. intros H. unfold score, incr. rewrite lookup_insert_ne by exact H. reflexivity. Qed.

Lemma countIf_cons {A} (f : A → bool) (x : A) (l : list A) :
  countIf f (x :: l) = (if f x then 1 else 0) + countIf f l.
Proof. unfold countIf. simpl. destruct (f x); simpl; lia. Qed.

Lemma score_scoreSample (m : gmap Z Z) (x : string) :
  score (scoreSample m x) FormatJSON
  = score m FormatJSON + (if isJSON x then 1 else 0)
  ∧ score (scoreSample m x) FormatLogfmt
    = score m FormatLogfmt + (if isLogfmt x then 1 else 0)
  ∧ score (scoreSample m x) FormatText = score m FormatText + 1.
Proof.
  unfold scoreSample.
  destruct (isJSON x), (isLogfmt x); repeat split;
    repeat first [ rewrite score_incr_eq
                 | rewrite score_incr_ne by discriminate ];
    lia.
Qed.

(** The loop of [detectFormat] counts, per format, the samples that
    vote for it. *)
Lemma scores_count (samples : list string) (m : gmap Z Z) :
  let scores := foldl scoreSample m samples in
  score scores FormatJSON = score m FormatJSON + countIf isJSON samples
  ∧ score scores FormatLogfmt = score m FormatLogfmt + countIf isLogfmt samples
  ∧ score scores FormatText = score m FormatText + Z.of_nat (length samples).
Proof.
  revert m. induction samples as [|x xs IH]; intros m.
  - unfold countIf. simpl. lia.
  - cbn [foldl]. destruct (IH (scoreSample m x)) as (HJ & HL & HT).
    cbv zeta. rewrite HJ, HL, HT, !countIf_cons. clear IH HJ HL HT.
    destruct (score_scoreSample m x) as (-> & -> & ->).
    cbn [length]. lia.
Qed.

(** An integer exceeds the truncated half of [t] iff it exceeds half
    of [t]. *)
Lemma half_lt (t j : Z) : 0 ≤ t → (Z.quot t 2 <? j) = (t <? 2 * j).
Proof.
  intros Ht. rewrite Z.quot_div_nonneg by lia.
  pose proof (Z.div_mod t 2 ltac:(lia)) as Hdm.
  pose proof (Z.mod_pos_bound t 2 ltac:(lia)) as Hm.
  destruct (Z.ltb_spec (t / 2) j), (Z.ltb_spec t (2 * j)); try reflexivity;
    exfalso; lia.
Qed.

Lemma isJSON_iff (line : string) :
  isJSON line = true
  ↔ (∃ t, TrimSpace line = "{" +:+ t)
    ∧ (∃ a, TrimSpace line = a +:+ "}")
    ∧ ∃ raw, json_Unmarshal (TrimSpace line) = inr raw.
Proof.
  unfold isJSON. rewrite <- HasPrefix_spec, <- HasSuffix_spec.
  destruct (HasPrefix (TrimSpace line) "{"), (HasSuffix (TrimSpace line) "}");
    simpl; try (split; [discriminate | intros (? & ? & _); discriminate]).
  destruct (json_Unmarshal (TrimSpace line)) as [err|raw].
  - split; [discriminate | intros (_ & _ & ? & ?); discriminate].
  - split; [intros _; eauto | reflexivity].
Qed.

Lemma isLogfmt_iff (line : string) :
  isLogfmt line = true
  ↔ (∃ a b, line = a +:+ "=" +:+ b)
    ∧ ((∃ a b, line = a +:+ "level=" +:+ b)
       ∨ (∃ a b, line = a +:+ "msg=" +:+ b)
       ∨ (∃ a b, line = a +:+ "time=" +:+ b)
       ∨ (∃ a b, line = a +:+ "timestamp=" +:+ b)).
Proof.
  unfold isLogfmt. rewrite andb_true_iff, !orb_true_iff, !Contains_spec.
  tauto.
Qed.

(** C5: the detector looks at the first min(10, length) lines only.  A
    line votes for JSON iff, trimmed, it starts with an opening brace, ends
    with a closing brace and decodes into a map; for logfmt iff it contains
    [=] and one of [level=], [msg=], [time=], [timestamp=]; every line
    votes for text.  The answer is JSON iff the JSON votes exceed the
    logfmt votes and half of the text votes, else logfmt iff the logfmt
    votes exceed half of the text votes, else text; no line gives text. *)
Theorem detectFormat_decision (samples : list string) :
  let sampled := take 10 samples in
  let j := countIf isJSON sampled in
  let l := countIf isLogfmt sampled in
  let t := Z.of_nat (length sampled) in
  length sampled = Nat.min 10 (length samples)
  ∧ detectFormat samples
    = (if (l <? j) && (Z.quot t 2 <? j) then FormatJSON
       else if Z.quot t 2 <? l then FormatLogfmt else FormatText)
  ∧ (detectFormat samples = FormatJSON ↔ l < j ∧ t < 2 * j)
  ∧ (detectFormat samples = FormatLogfmt ↔ ¬ (l < j ∧ t < 2 * j) ∧ t < 2 * l)
  ∧ (detectFormat samples = FormatText ↔ ¬ (l < j ∧ t < 2 * j) ∧ ¬ t < 2 * l)
  ∧ (∀ more : list string,
       (10 ≤ length samples)%nat →
       detectFormat (samples ++ more) = detectFormat samples)
  ∧ detectFormat [] = FormatText
  ∧ (∀ line : string,
       isJSON line = true
       ↔ (∃ t, TrimSpace line = "{" +:+ t)
         ∧ (∃ a, TrimSpace line = a +:+ "}")
         ∧ ∃ raw, json_Unmarshal (TrimSpace line) = inr raw)
  ∧ (∀ line : string,
       isLogfmt line = true
       ↔ (∃ a b, line = a +:+ "=" +:+ b)
         ∧ ((∃ a b, line = a +:+ "level=" +:+ b)
            ∨ (∃ a b, line = a +:+ "msg=" +:+ b)
            ∨ (∃ a b, line = a +:+ "time=" +:+ b)
            ∨ (∃ a b, line = a +:+ "timestamp=" +:+ b))).
Proof.
  assert (∀ xs : list string,
            detectFormat xs
            = (if (countIf isLogfmt (take 10 xs) <? countIf isJSON (take 10 xs))
                  && (Z.quot (Z.of_nat (length (take 10 xs))) 2
                      <? countIf isJSON (take 10 xs))
               then FormatJSON
               else if Z.quot (Z.of_nat (length (take 10 xs))) 2
                       <? countIf isLogfmt (take 10 xs)
               then FormatLogfmt else FormatText)) as Hdec.
  { intros xs. unfold detectFormat.
    destruct (length xs =? 0)%nat eqn:Hlen.
    - apply Nat.eqb_eq in Hlen. destruct xs; [reflexivity | discriminate].
    - assert (take (if (length xs <? 10)%nat then length xs else 10%nat) xs
              = take 10 xs) as ->.
      { destruct (length xs <? 10)%nat eqn:Hlt; [|reflexivity].
        apply Nat.ltb_lt in Hlt. rewrite !take_ge by lia. reflexivity. }
      destruct (scores_count (take 10 xs) ∅) as (-> & -> & ->).
      unfold score. rewrite !lookup_empty. simpl. reflexivity. }
  assert (∀ more : list string,
            (10 ≤ length samples)%nat →
            detectFormat (samples ++ more) = detectFormat samples) as Hmore.
  { intros more Hlen. rewrite !Hdec. rewrite take_app_le by lia. reflexivity. }
  cbv zeta. revert Hmore. rewrite Hdec. intros Hmore.
  set (sampled := take 10 samples).
  assert (0 ≤ countIf isJSON sampled ∧ 0 ≤ countIf isLogfmt sampled) as [Hj Hl]
    by (unfold countIf; lia).
  set (j := countIf isJSON sampled) in *. set (l := countIf isLogfmt sampled) in *.
  assert (0 ≤ Z.of_nat (length sampled)) as Ht by lia.
  set (t := Z.of_nat (length sampled)) in *.
  rewrite !half_lt by exact Ht.
  split; [subst sampled; rewrite length_take; lia|].
  split; [reflexivity|].
  split; [|split; [|split; [|split; [|split; [|split]]]]].
  1-3: destruct (Z.ltb_spec l j), (Z.ltb_spec t (2 * j)), (Z.ltb_spec t (2 * l));
    simpl; unfold FormatJSON, FormatLogfmt, FormatText; split;
    (discriminate || lia || (intros; exfalso; lia) || (intros; reflexivity) || (intros; lia)).
  - intros more Hlen. rewrite Hmore by exact Hlen.
    rewrite !half_lt by lia. reflexivity.
  - reflexivity.
  - apply isJSON_iff.
  - apply isLogfmt_iff.
Qed.

End DetectorFacts.

Section TrimFacts.
Context `{RT : GoRuntime}.

Lemma isASCII_trimLeftSpace (s : string) :
  isASCII s = true → isASCII (trimLeftSpace s) = true.
Proof.
  induction s as [|c s IH]; [reflexivity|]. intros H. simpl.
  destruct (asciiSpace c); [|exact H].
  simpl in H. apply andb_true_iff in H as [_ H]. apply IH, H.
Qed.

Lemma isASCII_trimRightSpace (s : string) :
  isASCII s = true → isASCII (trimRightSpace s) = true.
Proof.
  induction s as [|c s IH]; [reflexivity|]. intros H. simpl in *.
  apply andb_true_iff in H as [Hc H]. specialize (IH H).
  destruct (trimRightSpace s) as [|d r].
  - destruct (asciiSpace c); [reflexivity|]. simpl. rewrite Hc. reflexivity.
  - simpl in *. rewrite Hc, IH. reflexivity.
Qed.

Lemma trimRightSpace_idemp (s : string) :
  trimRightSpace (trimRightSpace s) = trimRightSpace s.
Proof.
  induction s as [|c s IH]; [reflexivity|]. simpl.
  destruct (trimRightSpace s) as [|d r] eqn:Hr.
  - destruct (asciiSpace c) eqn:Hc; [reflexivity|]. simpl. rewrite Hc. reflexivity.
  - change (trimRightSpace (String c (String d r))) with
      (match trimRightSpace (String d r) with
       | EmptyString => if asciiSpace c then EmptyString else String c EmptyString
       | t => String c t
       end).
    rewrite IH. reflexivity.
Qed.

(** What [trimLeftSpace] returns is empty or starts with a byte that is
    no space, and [trimRightSpace] keeps such a first byte. *)
Lemma trimLeft_trimRight_trimLeft (s : string) :
  trimLeftSpace (trimRightSpace (trimLeftSpace s)) = trimRightSpace (trimLeftSpace s).
Proof.
  induction s as [|c s IH]; [reflexivity|]. simpl.
  destruct (asciiSpace c) eqn:Hc; [exact IH|].
  simpl. destruct (trimRightSpace s) as [|d r]; rewrite ?Hc; simpl; rewrite Hc;
    reflexivity.
Qed.

(** On ASCII strings [strings.TrimSpace] is idempotent. *)
Lemma TrimSpace_idemp_ascii (s : string) :
  isASCII s = true → TrimSpace (TrimSpace s) = TrimSpace s.
Proof.
  intros H. unfold TrimSpace. rewrite H.
  rewrite (isASCII_trimRightSpace _ (isASCII_trimLeftSpace _ H)).
  rewrite trimLeft_trimRight_trimLeft. apply trimRightSpace_idemp.
Qed.

Lemma isASCII_snoc (s : string) (c : ascii) :
  isASCII s = true → (byte_val c <? RuneSelf) = true → isASCII (snoc s c) = true.
Proof.
  induction s as [|a s IH]; simpl; intros Hs Hc.
  - rewrite Hc. reflexivity.
  - apply andb_true_iff in Hs as [Ha Hs]. rewrite Ha, IH by assumption. reflexivity.
Qed.

Lemma splitAcc_ascii (sep : ascii) (s : string) :
  ∀ cur : string,
    isASCII cur = true → isASCII s = true →
    Forall (λ piece, isASCII piece = true) (splitAcc sep cur s).
Proof.
  induction s as [|c s IH]; intros cur Hcur Hs; simpl.
  - constructor; [exact Hcur | constructor].
  - simpl in Hs. apply andb_true_iff in Hs as [Hc Hs].
    destruct (Ascii.eqb c sep).
    + constructor; [exact Hcur|]. apply IH; [reflexivity | exact Hs].
    + apply IH; [apply isASCII_snoc; assumption | exact Hs].
Qed.

(** The lines [ParseString] keeps, when all lines are ASCII, are still
    not empty when trimmed again. *)
Lemma cleanLines_ascii (lines : list string) :
  ∀ clean : list string,
    Forall (λ line, isASCII line = true) lines →
    Forall (λ line, TrimSpace line ≠ EmptyString) clean →
    Forall (λ line, TrimSpace line ≠ EmptyString) (cleanLines lines clean).
Proof.
  induction lines as [|l ls IH]; intros clean Hall Hclean; [exact Hclean|].
  inversion Hall as [|? ? Hl Hls]; subst. simpl.
  destruct (String.eqb_spec (TrimSpace l) EmptyString) as [He|Hne]; simpl.
  - apply IH; assumption.
  - apply IH; [exact Hls|]. apply Forall_app. split; [exact Hclean|].
    constructor; [|constructor]. rewrite TrimSpace_idemp_ascii by exact Hl. exact Hne.
Qed.

End TrimFacts.

Section BatchFacts.
Context `{RT : GoRuntime}.

Lemma bind_Ok {A B} (m : M A) (k : A → M B) (n n' : nat) (a : A) :
  m n = (Ok a, n') → bind m k n = k a n'.
Proof. intros H. unfold bind. rewrite H. reflexivity. Qed.

Lemma bind_Err {A B} (m : M A) (k : A → M B) (n n' : nat) (e : error) :
  m n = (Err e, n') → bind m k n = (Err e, n').
Proof. intros H. unfold bind. rewrite H. reflexivity. Qed.

(** One failing line fails the loop. *)
Lemma forLines_fail (parseLine : string → M LogEntry) (lines : list string) :
  ∀ (entries : list LogEntry) (n : nat) (line : string),
    line ∈ lines →
    (∀ m, ∃ e m', parseLine line m = (Err e, m')) →
    ∃ e n', forLines parseLine lines entries n = (Err e, n').
Proof.
  induction lines as [|l ls IH]; intros entries n line Hin Hfail.
  - inversion Hin.
  - cbn [forLines].
    destruct (parseLine l n) as [[entry|e] n'] eqn:Hl.
    + rewrite (bind_Ok _ _ _ _ _ Hl).
      apply elem_of_cons in Hin as [->|Hin].
      * destruct (Hfail n) as (e & m' & He). congruence.
      * apply (IH _ _ line Hin Hfail).
    + rewrite (bind_Err _ _ _ _ _ Hl). eauto.
Qed.

(** The error of the loop is the error of one of its lines. *)
Lemma forLines_error (parseLine : string → M LogEntry) (lines : list string) :
  ∀ (entries : list LogEntry) (n n' : nat) (e : error),
    forLines parseLine lines entries n = (Err e, n') →
    ∃ line m, line ∈ lines ∧ parseLine line m = (Err e, n').
Proof.
  induction lines as [|l ls IH]; intros entries n n' e; cbn [forLines].
  - discriminate.
  - destruct (parseLine l n) as [[entry|e'] n1] eqn:Hl.
    + rewrite (bind_Ok _ _ _ _ _ Hl). intros H.
      apply IH in H as (line & m & Hin & H). exists line, m.
      split; [right; exact Hin | exact H].
    + rewrite (bind_Err _ _ _ _ _ Hl). intros [= <- <-].
      exists l, n. split; [left | exact Hl].
Qed.

(** Lines that never fail give one record each, in order. *)
Lemma forLines_total (parseLine : string → M LogEntry) (lines : list string) :
  ∀ (entries : list LogEntry) (n : nat),
    (∀ line m, line ∈ lines → ∃ e m', parseLine line m = (Ok e, m')) →
    ∃ es n', forLines parseLine lines entries n = (Ok (entries ++ es), n')
             ∧ length es = length lines.
Proof.
  induction lines as [|l ls IH]; intros entries n Hok; cbn [forLines].
  - exists [], n. rewrite app_nil_r. split; reflexivity.
  - destruct (Hok l n ltac:(left)) as (e & m' & He).
    rewrite (bind_Ok _ _ _ _ _ He).
    destruct (IH (entries ++ [e]) m') as (es & n' & Hes & Hlen).
    { intros line m Hin. apply Hok. right. exact Hin. }
    exists (e :: es), n'. rewrite Hes, <- app_assoc. simpl.
    split; [reflexivity | lia].
Qed.

Lemma parseJSONLine_undecodable (line err : string) (m : nat) :
  json_Unmarshal (TrimSpace line) = inl err →
  ∃ e, parseJSONLine line m = (Err e, m)
       ∧ (TrimSpace line ≠ EmptyString → e = ErrInvalidJSON err).
Proof.
  intros H. unfold parseJSONLine.
  destruct (String.eqb_spec (TrimSpace line) EmptyString) as [He|Hne].
  - exists ErrEmptyLine. split; [reflexivity | congruence].
  - rewrite H. exists (ErrInvalidJSON err). split; reflexivity.
Qed.

Lemma parseLogfmtLine_total (line : string) (m : nat) :
  TrimSpace line ≠ EmptyString → ∃ e m', parseLogfmtLine line m = (Ok e, m').
Proof.
  intros Hne. unfold parseLogfmtLine.
  rewrite eqb_empty_false by exact Hne.
  destruct (extractLogfmtTimestamp _ _) as [p1 e1].
  destruct (extractLogfmtLevel _ _) as [p2 e2].
  destruct (extractLogfmtMessage _ _) as [p3 e3].
  destruct (IsZero _); [|unfold ret; eauto].
  unfold bind, now, ret. eauto.
Qed.

Lemma parseTextLine_total (line : string) (patterns : list textPattern) (m : nat) :
  TrimSpace line ≠ EmptyString →
  ∃ e m', parseTextLine line patterns m = (Ok e, m').
Proof.
  intros Hne. unfold parseTextLine.
  rewrite eqb_empty_false by exact Hne.
  destruct (IsZero _); [|unfold ret; eauto].
  unfold bind, now, ret. eauto.
Qed.

Lemma cleanLines_blank (lines clean : list string) :
  Forall (λ line, TrimSpace line = EmptyString) lines →
  cleanLines lines clean = clean.
Proof.
  revert clean. induction lines as [|l ls IH]; intros clean Hall; [reflexivity|].
  inversion Hall as [|? ? Hl Hls]; subst. simpl. rewrite Hl. simpl.
  apply IH, Hls.
Qed.

(** C9: an input without a line that is not empty after trimming, the
    empty string among them, gives no record and no error, whatever the
    format of the parser: for a string, and for a reader that the scanner
    reads without an error. *)
Theorem empty_input_no_records (p : parser) (n : nat) :
  parseLines p [] n = (Ok [], n)
  ∧ ParseString p EmptyString n = (Ok [], n)
  ∧ (∀ s : string,
       Forall (λ line, TrimSpace line = EmptyString) (Split s newline) →
       ParseString p s n = (Ok [], n))
  ∧ (∀ (r : Reader) (texts : list string),
       scanLines r = (texts, None) →
       Forall (λ line, TrimSpace line = EmptyString) texts →
       Parse p r n = (Ok [], n)).
Proof.
  split; [reflexivity|]. split; [reflexivity|]. split.
  - intros s Hall. unfold ParseString. rewrite cleanLines_blank by exact Hall.
    reflexivity.
  - intros r texts Hscan Hall. unfold Parse. rewrite Hscan.
    rewrite cleanLines_blank by exact Hall. reflexivity.
Qed.

(** C1: a batch in JSON mode with a line that does not decode fails as a
    whole and returns no record, with the decode error when no line is
    empty; in logfmt and text mode a line that is not empty never fails,
    and a batch of such lines gives one record per line and no error.  So
    [ParseString] in logfmt or text mode never fails on an ASCII string
    and returns one record per line it keeps. *)
Theorem json_fails_fast_logfmt_text_complete (lines : list string) (n : nat) :
  ((∃ line err, line ∈ lines ∧ json_Unmarshal (TrimSpace line) = inl err) →
   ∃ e n',
     parseJSON lines n = (Err e, n')
     ∧ parseLines (NewWithFormat FormatJSON) lines n = (Err e, n')
     ∧ (Forall (λ line, TrimSpace line ≠ EmptyString) lines →
        ∃ cause, e = ErrInvalidJSON cause))
  ∧ (Forall (λ line, TrimSpace line ≠ EmptyString) lines →
     (∀ line m, line ∈ lines →
        (∃ e m', parseLogfmtLine line m = (Ok e, m'))
        ∧ (∃ e m', parseTextLine line initTextPatterns m = (Ok e, m')))
     ∧ (∃ es n',
          parseLines (NewWithFormat FormatLogfmt) lines n = (Ok es, n')
          ∧ length es = length lines)
     ∧ (∃ es n',
          parseLines (NewWithFormat FormatText) lines n = (Ok es, n')
          ∧ length es = length lines))
  ∧ (∀ (s : string) (f : Format),
       isASCII s = true → f = FormatLogfmt ∨ f = FormatText →
       ∃ es n',
         ParseString (NewWithFormat f) s n = (Ok es, n')
         ∧ length es = length (cleanLines (Split s newline) [])).
Proof.
  assert (∀ ls : list string,
            Forall (λ line, TrimSpace line ≠ EmptyString) ls →
            (∀ line m, line ∈ ls →
               (∃ e m', parseLogfmtLine line m = (Ok e, m'))
               ∧ (∃ e m', parseTextLine line initTextPatterns m = (Ok e, m')))
            ∧ (∃ es n',
                 parseLines (NewWithFormat FormatLogfmt) ls n = (Ok es, n')
                 ∧ length es = length ls)
            ∧ (∃ es n',
                 parseLines (NewWithFormat FormatText) ls n = (Ok es, n')
                 ∧ length es = length ls)) as Hcomplete.
  { clear lines. intros lines Hne. rewrite Forall_forall in Hne.
    assert (∀ line m, line ∈ lines →
              (∃ e m', parseLogfmtLine line m = (Ok e, m'))
              ∧ (∃ e m', parseTextLine line initTextPatterns m = (Ok e, m'))) as Hline.
    { intros line m Hin. split.
      - apply parseLogfmtLine_total, Hne, Hin.
      - apply parseTextLine_total, Hne, Hin. }
    split; [exact Hline|].
    destruct lines as [|l ls]; [split; exists [], n; split; reflexivity|].
    split.
    + destruct (forLines_total parseLogfmtLine (l :: ls) [] n) as (es & n' & H & Hlen).
      { intros line m Hin. apply (Hline line m Hin). }
      exists es, n'. split; [exact H | exact Hlen].
    + destruct (forLines_total (λ line, parseTextLine line initTextPatterns)
                  (l :: ls) [] n) as (es & n' & H & Hlen).
      { intros line m Hin. apply (Hline line m Hin). }
      exists es, n'. split; [exact H | exact Hlen]. }
  split; [|split].
  - intros (line & err & Hin & Herr).
    destruct (forLines_fail parseJSONLine lines [] n line Hin) as (e & n' & He).
    { intros m. destruct (parseJSONLine_undecodable line err m Herr) as (e & He & _).
      eauto. }
    exists e, n'. split; [exact He|]. split.
    + unfold parseLines. destruct lines as [|l ls]; [inversion Hin|]. exact He.
    + intros Hne. apply forLines_error in He as (l & m & Hl & He).
      rewrite Forall_forall in Hne. specialize (Hne l Hl).
      unfold parseJSONLine in He. rewrite eqb_empty_false in He by exact Hne.
      destruct (json_Unmarshal (TrimSpace l)) as [cause|raw].
      * injection He as <- _. eauto.
      * exfalso. unfold bind in He.
        destruct (extractJSONTimestamp _ _ _) as [[[raw1 e1]|e'] m1] eqn:Hts.
        -- destruct (extractJSONLevel _ _) as [raw2 e2].
           destruct (extractJSONMessage _ _) as [raw3 e3]. discriminate.
        -- unfold extractJSONTimestamp in Hts.
           destruct (firstTimestamp _ _) as [[k t]|]; [discriminate|].
           simpl in Hts. discriminate.
  - apply Hcomplete.
  - intros s f Hs Hf. unfold ParseString.
    destruct (Hcomplete (cleanLines (Split s newline) [])) as (_ & Hflat & Htext).
    { apply cleanLines_ascii; [|constructor].
      apply splitAcc_ascii; [reflexivity | exact Hs]. }
    destruct Hf as [-> | ->]; assumption.
Qed.

End BatchFacts.

Section JSONFacts.
Context `{RT : GoRuntime}.

Lemma copyFields_union (m dst : gmap string Value) : copyFields m dst = m ∪ dst.
Proof.
  unfold copyFields.
  apply (map_fold_weak_ind (λ r m, r = m ∪ dst)).
  - rewrite (left_id_L ∅ (∪)). reflexivity.
  - intros k v m' r Hk ->. rewrite insert_union_l. reflexivity.
Qed.

Lemma copyFields_empty (m : gmap string Value) : copyFields m ∅ = m.
Proof. rewrite copyFields_union. apply (right_id_L ∅ (∪)). Qed.

(** The first key, in the order of [keys], that is present with a value
    [parseTimestamp] accepts. *)
Lemma firstTimestamp_Some (keys : list string) (raw : gmap string Value)
    (k : string) (t : Time) :
  firstTimestamp keys raw = Some (k, t)
  ↔ ∃ (i : nat) (v : Value),
      keys !! i = Some k ∧ raw !! k = Some v ∧ parseTimestamp v = Ok t
      ∧ ∀ (j : nat) (k' : string) (v' : Value),
          (j < i)%nat → keys !! j = Some k' → raw !! k' = Some v' →
          isOk (parseTimestamp v') = false.
Proof.
  induction keys as [|a keys IH]; simpl.
  - split; [discriminate | intros (i & v & Hi & _); destruct i; discriminate].
  - destruct (raw !! a) as [va|] eqn:Ha;
      [destruct (parseTimestamp va) as [ta|ea] eqn:Hp|].
    + split.
      * intros [= <- <-]. exists 0%nat, va. repeat split; auto. lia.
      * intros (i & v & Hi & Hv & Hpv & Hmin). destruct i as [|i].
        -- injection Hi as <-. congruence.
        -- specialize (Hmin 0%nat a va ltac:(lia) eq_refl Ha).
           rewrite Hp in Hmin. discriminate.
    + rewrite IH. split.
      * intros (i & v & Hi & Hv & Hpv & Hmin). exists (S i), v.
        repeat split; auto.
        intros [|j] k' v' Hj Hk' Hv'.
        -- injection Hk' as <-. rewrite Ha in Hv'. injection Hv' as <-.
           rewrite Hp. reflexivity.
        -- apply (Hmin j k' v'); auto. lia.
      * intros (i & v & Hi & Hv & Hpv & Hmin). destruct i as [|i].
        -- injection Hi as <-. congruence.
        -- exists i, v. repeat split; auto.
           intros j k' v' Hj Hk' Hv'. apply (Hmin (S j) k' v'); auto. lia.
    + rewrite IH. split.
      * intros (i & v & Hi & Hv & Hpv & Hmin). exists (S i), v.
        repeat split; auto.
        intros [|j] k' v' Hj Hk' Hv'.
        -- injection Hk' as <-. congruence.
        -- apply (Hmin j k' v'); auto. lia.
      * intros (i & v & Hi & Hv & Hpv & Hmin). destruct i as [|i].
        -- injection Hi as <-. congruence.
        -- exists i, v. repeat split; auto.
           intros j k' v' Hj Hk' Hv'. apply (Hmin (S j) k' v'); auto. lia.
Qed.

Lemma firstTimestamp_None (keys : list string) (raw : gmap string Value) :
  firstTimestamp keys raw = None
  ↔ ∀ (k : string) (v : Value),
      k ∈ keys → raw !! k = Some v → isOk (parseTimestamp v) = false.
Proof.
  induction keys as [|a keys IH]; simpl.
  - split; [intros _ k v Hk; inversion Hk | reflexivity].
  - destruct (raw !! a) as [va|] eqn:Ha;
      [destruct (parseTimestamp va) as [ta|ea] eqn:Hp|].
    + split; [discriminate|]. intros H.
      specialize (H a va ltac:(left) Ha). rewrite Hp in H. discriminate.
    + rewrite IH. split.
      * intros H k v Hk Hv. apply elem_of_cons in Hk as [->|Hk]; [|eauto].
        rewrite Ha in Hv. injection Hv as <-. rewrite Hp. reflexivity.
      * intros H k v Hk. apply H. right. exact Hk.
    + rewrite IH. split.
      * intros H k v Hk Hv. apply elem_of_cons in Hk as [->|Hk]; [congruence|eauto].
      * intros H k v Hk. apply H. right. exact Hk.
Qed.

Lemma firstString_Some (keys : list string) (raw : gmap string Value)
    (k s : string) :
  firstString keys raw = Some (k, s) → k ∈ keys ∧ raw !! k = Some (VString s).
Proof.
  induction keys as [|a keys IH]; simpl; [discriminate|].
  destruct (raw !! a) as [[| | |sa| |]|] eqn:Ha;
    try (intros H; apply IH in H as [Hin Hk]; split; [right; exact Hin | exact Hk]).
  intros [= <- <-]. split; [left | exact Ha].
Qed.

Lemma firstString_delete (keys : list string) (raw : gmap string Value)
    (k : string) :
  k ∉ keys → firstString keys (delete k raw) = firstString keys raw.
Proof.
  induction keys as [|a keys IH]; simpl; [reflexivity|].
  intros Hk. apply not_elem_of_cons in Hk as [Hne Hk].
  rewrite lookup_delete_ne by exact Hne. rewrite IH by exact Hk. reflexivity.
Qed.

Lemma lookup_foldr_delete_keys (ks : list string) (m : gmap string Value)
    (k : string) :
  foldr delete m ks !! k = if bool_decide (k ∈ ks) then None else m !! k.
Proof.
  induction ks as [|a ks IH]; cbn [foldr].
  - rewrite bool_decide_eq_false_2 by (apply not_elem_of_nil). reflexivity.
  - destruct (decide (a = k)) as [->|Hne].
    + rewrite lookup_delete_eq, bool_decide_eq_true_2 by left. reflexivity.
    + rewrite lookup_delete_ne by exact Hne. rewrite IH.
      destruct (decide (k ∈ ks)) as [Hin|Hnin].
      * rewrite !bool_decide_eq_true_2; [reflexivity | right; exact Hin | exact Hin].
      * rewrite !bool_decide_eq_false_2; [reflexivity | | exact Hnin].
        intros H. apply elem_of_cons in H as [->|H]; [congruence | contradiction].
Qed.

Lemma json_keys_disjoint (k : string) :
  (k ∈ jsonTimestampKeys → (k ∉ jsonLevelKeys) ∧ (k ∉ jsonMessageKeys))
  ∧ (k ∈ jsonLevelKeys → k ∉ jsonMessageKeys).
Proof.
  unfold jsonTimestampKeys, jsonLevelKeys, jsonMessageKeys.
  split; intros H; repeat (apply elem_of_cons in H as [->|H]);
    try (inversion H; fail);
    repeat split; intros H'; repeat (apply elem_of_cons in H' as [H'|H']);
    try discriminate; inversion H'.
Qed.

(** What [parseJSONLine] returns for a line that decodes into [raw]. *)
Lemma parseJSONLine_decoded (line : string) (raw : gmap string Value) (n : nat) :
  TrimSpace line ≠ EmptyString →
  json_Unmarshal (TrimSpace line) = inr raw →
  parseJSONLine line n
  = ( Ok (mkLogEntry
            (match firstTimestamp jsonTimestampKeys raw with
             | Some (_, t) => t
             | None => time_Now n
             end)
            (match firstString jsonLevelKeys raw with
             | Some (_, s) => ParseLevel s
             | None => LevelInfo
             end)
            (match firstString jsonMessageKeys raw with
             | Some (_, s) => s
             | None => EmptyString
             end)
            (foldr delete raw (liftedKeys raw))),
      match firstTimestamp jsonTimestampKeys raw with
      | Some _ => n
      | None => S n
      end ).
Proof.
  intros Hne Hraw. unfold parseJSONLine, liftedKeys.
  rewrite eqb_empty_false by exact Hne. rewrite Hraw.
  unfold extractJSONTimestamp.
  destruct (firstTimestamp jsonTimestampKeys raw) as [[kt t]|] eqn:Hts.
  - apply firstTimestamp_Some in Hts as (i & v & Hi & _).
    apply list_elem_of_lookup_2 in Hi.
    destruct (proj1 (json_keys_disjoint kt) Hi) as [HnL HnM].
    unfold bind, ret. unfold extractJSONLevel.
    rewrite (firstString_delete _ _ _ HnL).
    destruct (firstString jsonLevelKeys raw) as [[kl sl]|] eqn:Hlv.
    + apply firstString_Some in Hlv as [HlIn _].
      pose proof (proj2 (json_keys_disjoint kl) HlIn) as HlM.
      unfold extractJSONMessage.
      rewrite (firstString_delete _ _ _ HlM), (firstString_delete _ _ _ HnM).
      destruct (firstString jsonMessageKeys raw) as [[km sm]|];
        simpl; rewrite copyFields_empty; unfold setFields; simpl.
      * f_equal. f_equal. f_equal.
        rewrite (delete_delete _ km kl), (delete_delete _ km kt).
        rewrite (delete_delete _ kl kt). reflexivity.
      * f_equal. f_equal. f_equal. apply delete_delete.
    + unfold extractJSONMessage. rewrite (firstString_delete _ _ _ HnM).
      destruct (firstString jsonMessageKeys raw) as [[km sm]|];
        simpl; rewrite copyFields_empty; unfold setFields; simpl.
      * f_equal. f_equal. f_equal. apply delete_delete.
      * reflexivity.
  - change (IsZero (Timestamp (mkLogEntry zeroTime EmptyString EmptyString ∅)))
      with true. cbv iota.
    unfold bind, now, ret. unfold extractJSONLevel.
    destruct (firstString jsonLevelKeys raw) as [[kl sl]|] eqn:Hlv.
    + apply firstString_Some in Hlv as [HlIn _].
      pose proof (proj2 (json_keys_disjoint kl) HlIn) as HlM.
      unfold extractJSONMessage. rewrite (firstString_delete _ _ _ HlM).
      destruct (firstString jsonMessageKeys raw) as [[km sm]|];
        simpl; rewrite copyFields_empty; unfold setFields; simpl.
      * f_equal. f_equal. f_equal. apply delete_delete.
      * reflexivity.
    + unfold extractJSONMessage.
      destruct (firstString jsonMessageKeys raw) as [[km sm]|];
        simpl; rewrite copyFields_empty; reflexivity.
Qed.

End JSONFacts.

Section JSONExtraction.
Context `{RT : GoRuntime}.

Lemma liftedKeys_lifted (raw : gmap string Value) (k : string) :
  k ∈ liftedKeys raw →
  (k ∈ jsonTimestampKeys
   ∧ ∃ v t, raw !! k = Some v ∧ parseTimestamp v = Ok t)
  ∨ (k ∈ jsonLevelKeys ++ jsonMessageKeys
     ∧ ∃ s, raw !! k = Some (VString s)).
Proof.
  unfold liftedKeys. rewrite !elem_of_app. intros [H|[H|H]].
  - destruct (firstTimestamp jsonTimestampKeys raw) as [[kt t]|] eqn:Hts;
      [|inversion H].
    apply list_elem_of_singleton in H as ->.
    apply firstTimestamp_Some in Hts as (i & v & Hi & Hv & Hp & _).
    left. split; [eapply list_elem_of_lookup_2, Hi | eauto].
  - destruct (firstString jsonLevelKeys raw) as [[kl s]|] eqn:Hl; [|inversion H].
    apply list_elem_of_singleton in H as ->.
    apply firstString_Some in Hl as [Hin Hv].
    right. split; [left; exact Hin | eauto].
  - destruct (firstString jsonMessageKeys raw) as [[km s]|] eqn:Hm; [|inversion H].
    apply list_elem_of_singleton in H as ->.
    apply firstString_Some in Hm as [Hin Hv].
    right. split; [right; exact Hin | eauto].
Qed.

(** C2: for a line that decodes into the map [raw], the keys timestamp,
    time, @timestamp, ts are tried in this order: the first one that is
    present with a value [parseTimestamp] accepts gives the timestamp of
    the record and is removed, and the clock is not read; when no such key
    exists the timestamp is the reading of the clock.  The fields of the
    record are [raw] without the keys the timestamp, level and message
    extraction removed: every other key keeps its value, of whatever type,
    and no removed key is a field. *)
Theorem parseJSONLine_timestamp_and_fields
    (line : string) (raw : gmap string Value) (n : nat) :
  TrimSpace line ≠ EmptyString →
  json_Unmarshal (TrimSpace line) = inr raw →
  ∃ (entry : LogEntry) (n' : nat),
    parseJSONLine line n = (Ok entry, n')
    ∧ jsonTimestampKeys = ["timestamp"; "time"; "@timestamp"; "ts"]
    ∧ (∀ (i : nat) (k : string) (v : Value) (t : Time),
         jsonTimestampKeys !! i = Some k →
         raw !! k = Some v → parseTimestamp v = Ok t →
         (∀ (j : nat) (k' : string) (v' : Value),
            (j < i)%nat → jsonTimestampKeys !! j = Some k' →
            raw !! k' = Some v' → isOk (parseTimestamp v') = false) →
         Timestamp entry = t ∧ Fields entry !! k = None ∧ n' = n)
    ∧ ((∀ (k : string) (v : Value),
          k ∈ jsonTimestampKeys → raw !! k = Some v →
          isOk (parseTimestamp v) = false) →
       Timestamp entry = time_Now n ∧ n' = S n)
    ∧ (∀ k : string,
         Fields entry !! k
         = if bool_decide (k ∈ liftedKeys raw) then None else raw !! k)
    ∧ (∀ k : string,
         k ∈ liftedKeys raw →
         (k ∈ jsonTimestampKeys
          ∧ ∃ v t, raw !! k = Some v ∧ parseTimestamp v = Ok t)
         ∨ (k ∈ jsonLevelKeys ++ jsonMessageKeys
            ∧ ∃ s, raw !! k = Some (VString s)))
    ∧ (∀ k : string,
         k ∉ jsonTimestampKeys ++ jsonLevelKeys ++ jsonMessageKeys →
         Fields entry !! k = raw !! k).
Proof.
  intros Hne Hraw. eexists _, _. split; [exact (parseJSONLine_decoded line raw n Hne Hraw)|].
  cbn [Timestamp Fields].
  assert (∀ k : string,
            foldr delete raw (liftedKeys raw) !! k
            = if bool_decide (k ∈ liftedKeys raw) then None else raw !! k) as Hfields
    by (intros k; apply lookup_foldr_delete_keys).
  split; [reflexivity|]. split; [|split; [|split; [|split]]].
  - intros i k v t Hi Hv Hp Hmin.
    assert (firstTimestamp jsonTimestampKeys raw = Some (k, t)) as Hts.
    { apply firstTimestamp_Some. exists i, v. auto. }
    rewrite Hfields. rewrite Hts. split; [reflexivity|]. split; [|reflexivity].
    rewrite bool_decide_eq_true_2; [reflexivity|].
    unfold liftedKeys. rewrite Hts. left.
  - intros Hnone. apply firstTimestamp_None in Hnone. rewrite Hnone.
    split; reflexivity.
  - exact Hfields.
  - apply liftedKeys_lifted.
  - intros k Hk. rewrite Hfields. rewrite bool_decide_eq_false_2; [reflexivity|].
    intros Hin. apply liftedKeys_lifted in Hin as [[Hin _]|[Hin _]];
      apply Hk; rewrite !elem_of_app in *; tauto.
Qed.

End JSONExtraction.

Section TextFacts.
Context `{RT : GoRuntime}.

Lemma tryPatterns_no_match (patterns : list textPattern) (l : string)
    (entry : LogEntry) :
  Forall (λ p, FindStringSubmatch (regex p) l = None) patterns →
  tryPatterns patterns l entry = entry.
Proof.
  induction patterns as [|p ps IH]; intros Hall; [reflexivity|].
  inversion Hall as [|? ? Hp Hps]; subst. simpl. rewrite Hp. apply IH, Hps.
Qed.

(** The loop stops at the first pattern that matches. *)
Lemma tryPatterns_first (pre post : list textPattern) (p : textPattern)
    (m : list string) (l : string) (entry : LogEntry) :
  Forall (λ p', FindStringSubmatch (regex p') l = None) pre →
  FindStringSubmatch (regex p) l = Some m →
  tryPatterns (pre ++ p :: post) l entry = applyPattern p m entry.
Proof.
  induction pre as [|a pre IH]; intros Hall Hp; simpl.
  - rewrite Hp. reflexivity.
  - inversion Hall as [|? ? Ha Hpre]; subst. rewrite Ha. apply IH; assumption.
Qed.

Lemma applyPattern_fields (p : textPattern) (m : list string) (l : string) :
  applyPattern p m (mkLogEntry zeroTime "INFO" l ∅)
  = mkLogEntry (patternTime p m)
      (if inMatches (lvlIndex p) m then ParseLevel (matchAt m (lvlIndex p))
       else "INFO")
      (if inMatches (msgIndex p) m then matchAt m (msgIndex p) else l)
      ∅.
Proof.
  unfold applyPattern, patternTime.
  destruct (inMatches (tsIndex p) m && negb (String.eqb (tsFormat p) EmptyString));
    [destruct (time_Parse _ _)|];
    destruct (inMatches (lvlIndex p) m), (inMatches (msgIndex p) m); reflexivity.
Qed.

Lemma compilePatterns_all (table : list (string * string * Z * Z * Z)) :
  ∀ acc : list textPattern,
    Forall (λ row, is_Some (regexp_Compile row.1.1.1.1)) table →
    map patternShape (compilePatterns table acc)
    = map patternShape acc ++ map (λ row, (row.1.1.1.2, row.1.1.2, row.1.2, row.2)) table.
Proof.
  induction table as [|[[[[src f] ti] li] mi] rest IH]; intros acc Hall; simpl.
  - rewrite app_nil_r. reflexivity.
  - inversion Hall as [|? ? [re Hre] Hrest]; subst. simpl in Hre. rewrite Hre.
    rewrite IH by exact Hrest. rewrite map_app, <- app_assoc. reflexivity.
Qed.

(** C4: for a line that is not empty after trimming, [parseTextLine] never
    fails.  The record starts as the trimmed line for message, INFO for
    level and the zero timestamp.  The patterns are tried in order and the
    first that matches alone decides timestamp, level and message, whatever
    patterns come after it; with no match the defaults stand.  Last, a
    timestamp that is still zero becomes the reading of the clock.  The
    patterns of [initTextPatterns] are the four of the table, in order. *)
Theorem parseTextLine_first_match
    (line : string) (patterns : list textPattern) (n : nat) :
  TrimSpace line ≠ EmptyString →
  ∃ (entry : LogEntry) (n' : nat),
    parseTextLine line patterns n = (Ok entry, n')
    ∧ (Forall (λ p, FindStringSubmatch (regex p) (TrimSpace line) = None) patterns →
       entry = mkLogEntry (time_Now n) "INFO" (TrimSpace line) ∅ ∧ n' = S n)
    ∧ (∀ (pre post : list textPattern) (p : textPattern) (m : list string),
         patterns = pre ++ p :: post →
         Forall (λ p', FindStringSubmatch (regex p') (TrimSpace line) = None) pre →
         FindStringSubmatch (regex p) (TrimSpace line) = Some m →
         Timestamp entry
         = (if IsZero (patternTime p m) then time_Now n else patternTime p m)
         ∧ n' = (if IsZero (patternTime p m) then S n else n)
         ∧ Level entry
           = (if inMatches (lvlIndex p) m
              then ParseLevel (matchAt m (lvlIndex p)) else "INFO")
         ∧ Message entry
           = (if inMatches (msgIndex p) m
              then matchAt m (msgIndex p) else TrimSpace line)
         ∧ Fields entry = ∅
         ∧ ∀ post' : list textPattern,
             parseTextLine line (pre ++ p :: post') n = (Ok entry, n'))
    ∧ (Forall (λ row, is_Some (regexp_Compile row.1.1.1.1)) patternTable →
       map patternShape initTextPatterns
       = [ ("Jan 02 15:04:05", 1, 2, 3); ("2006-01-02 15:04:05", 1, 2, 3);
           ("2006-01-02T15:04:05Z07:00", 1, 2, 3); (EmptyString, 0, 1, 2) ]).
Proof.
  intros Hne.
  destruct (parseTextLine_total line patterns n Hne) as (entry & n' & Hrun).
  exists entry, n'. split; [exact Hrun|].
  unfold parseTextLine in Hrun. rewrite eqb_empty_false in Hrun by exact Hne.
  split; [|split].
  - intros Hall. rewrite tryPatterns_no_match in Hrun by exact Hall.
    simpl in Hrun. unfold bind, now, ret in Hrun. injection Hrun as <- <-.
    split; reflexivity.
  - intros pre post p m -> Hpre Hp.
    assert (∀ post' : list textPattern,
              parseTextLine line (pre ++ p :: post') n
              = (if IsZero (patternTime p m)
                 then (Ok (setTimestamp (time_Now n)
                             (applyPattern p m
                                (mkLogEntry zeroTime "INFO" (TrimSpace line) ∅))), S n)
                 else (Ok (applyPattern p m
                             (mkLogEntry zeroTime "INFO" (TrimSpace line) ∅)), n)))
      as Hany.
    { intros post'. unfold parseTextLine. rewrite eqb_empty_false by exact Hne.
      rewrite (tryPatterns_first pre post' p m) by assumption.
      rewrite applyPattern_fields. cbn [Timestamp].
      destruct (IsZero (patternTime p m)); reflexivity. }
    pose proof (Hany post) as Hpost. unfold parseTextLine in Hpost.
    rewrite eqb_empty_false in Hpost by exact Hne. rewrite Hpost in Hrun.
    rewrite applyPattern_fields in Hrun.
    assert (∀ post', parseTextLine line (pre ++ p :: post') n = (Ok entry, n')) as Hind.
    { intros post'. rewrite Hany, applyPattern_fields.
      destruct (IsZero (patternTime p m)); exact Hrun. }
    destruct (IsZero (patternTime p m)); injection Hrun as <- <-;
      repeat split; exact Hind.
  - intros Hall. unfold initTextPatterns.
    rewrite compilePatterns_all by exact Hall. reflexivity.
Qed.

End TextFacts.

(** ** More on the tokenizer *)

Lemma emit_pairsOK (st : TokState) : pairsOK (pairs st) → pairsOK (emit st).
Proof.
  intros HP. unfold emit.
  destruct (String.eqb_spec (key st) EmptyString) as [He|Hne]; [exact HP|].
  intros k v Hk. destruct (decide (key st = k)) as [<-|Hkk].
  - rewrite lookup_insert_eq in Hk. injection Hk as <-. eauto.
  - rewrite lookup_insert_ne in Hk by exact Hkk. apply (HP k v Hk).
Qed.

Lemma tokStep_pairsOK (prev : option ascii) (ch : ascii) (st : TokState) :
  pairsOK (pairs st) → pairsOK (pairs (tokStep prev ch st)).
Proof.
  intros HP. unfold tokStep.
  repeat match goal with
         | |- context [if ?b then _ else _] => destruct b
         | |- context [match ?o with Some _ => _ | None => _ end] => destruct o
         end; simpl; try exact HP.
  apply emit_pairsOK, HP.
Qed.

Lemma tokLoop_pairsOK (s : string) (prev : option ascii) (st : TokState) :
  pairsOK (pairs st) → pairsOK (pairs (tokLoop prev s st)).
Proof.
  revert prev st. induction s as [|c s IH]; intros prev st HP; [exact HP|].
  simpl. apply IH, tokStep_pairsOK, HP.
Qed.

Lemma parseLogfmtPairs_pairsOK (line : string) : pairsOK (parseLogfmtPairs line).
Proof.
  unfold parseLogfmtPairs. apply emit_pairsOK, tokLoop_pairsOK.
  intros k v Hk. cbn [pairs tokInit] in Hk. rewrite lookup_empty in Hk. discriminate.
Qed.

(** X1: whatever the line, the tokenizer stores no empty key and nothing
    but strings. *)
Theorem tokenizer_keys_nonempty_values_strings
    (line k : string) (v : Value) :
  parseLogfmtPairs line !! k = Some v →
  k ≠ EmptyString ∧ ∃ s : string, v = VString s.
Proof. apply parseLogfmtPairs_pairsOK. Qed.

Lemma plainValue_cons (c : ascii) (v : string) :
  plainValue (String c v) = true →
  Ascii.eqb c " "%char = false ∧ Ascii.eqb c dquote = false ∧ plainValue v = true.
Proof.
  unfold plainValue. simpl. intros H.
  apply andb_true_iff in H as [Hc Hv]. apply andb_true_iff in Hc as [H1 H2].
  apply negb_true_iff in H1, H2. auto.
Qed.

(** Reading a value outside quotes: bytes that are no space and no quote
    are appended to it. *)
Lemma tokLoop_plain (v : string) (prev : option ascii) (st : TokState) :
  inKey st = false → inQuotes st = false → plainValue v = true →
  tokLoop prev v st = mkTok (pairs st) (key st) (value st +:+ v) false false.
Proof.
  revert prev st. induction v as [|c v IH]; intros prev [P k val iq ik]; simpl;
    intros -> -> Hv.
  - rewrite app_empty_r. reflexivity.
  - apply plainValue_cons in Hv as (Hsp & Hq & Hv).
    assert (tokStep prev c (mkTok P k val false false)
            = mkTok P k (snoc val c) false false) as ->.
    { unfold tokStep; simpl. rewrite Hsp, Hq, !andb_false_r. reflexivity. }
    rewrite IH by (reflexivity || exact Hv). simpl.
    rewrite snoc_app, app_assoc_str. reflexivity.
Qed.

(** A well-formed pair read from the start of a key. *)
Lemma tokLoop_renderPair (p : Pair) (prev : option ascii) (P : gmap string Value) :
  wellFormedPair p →
  tokLoop prev (renderPair p) (atKey P)
  = mkTok P (keyText (pairKey p)) (pairValue p) false false.
Proof.
  destruct p as [k v q]. unfold wellFormedPair, renderPair; simpl.
  intros (Hk & Hnoeq & Hv). destruct q.
  - apply (tokLoop_quotedPair k v prev P Hnoeq Hv).
  - rewrite tokLoop_app.
    rewrite (tokLoop_key k prev (atKey P)) by (reflexivity || exact Hnoeq).
    cbn [pairs key value atKey]. change (EmptyString +:+ keyText k) with (keyText k).
    rewrite app_cons. change (EmptyString +:+ v) with v. cbn [tokLoop].
    assert (∀ o, tokStep o "="%char (mkTok P (keyText k) EmptyString false true)
                 = mkTok P (keyText k) EmptyString false false) as -> by reflexivity.
    rewrite tokLoop_plain by (reflexivity || exact Hv). reflexivity.
Qed.

Lemma emit_pair (P : gmap string Value) (k v : string) :
  k ≠ EmptyString →
  emit (mkTok P (keyText k) v false false) = <[keyText k := VString v]> P.
Proof.
  intros Hk. unfold emit; simpl.
  rewrite eqb_empty_false by (apply keyText_nonempty, Hk). reflexivity.
Qed.

Lemma tokLoop_renderPairs (ps : list Pair) :
  ∀ (prev : option ascii) (P : gmap string Value),
    Forall wellFormedPair ps →
    emit (tokLoop prev (renderPairs ps) (atKey P)) = storePairs P ps.
Proof.
  induction ps as [|p ps IH]; intros prev P Hall; [reflexivity|].
  inversion Hall as [|? ? Hp Hps]; subst.
  destruct ps as [|p' ps].
  - cbn [renderPairs]. rewrite tokLoop_renderPair by exact Hp.
    rewrite emit_pair by apply Hp. reflexivity.
  - change (renderPairs (p :: p' :: ps))
      with (renderPair p +:+ " " +:+ renderPairs (p' :: ps)).
    rewrite tokLoop_app, tokLoop_renderPair by exact Hp.
    rewrite app_cons. change (EmptyString +:+ ?s) with s. cbn [tokLoop].
    assert (∀ o, tokStep o " "%char
                   (mkTok P (keyText (pairKey p)) (pairValue p) false false)
                 = atKey (<[keyText (pairKey p) := VString (pairValue p)]> P)) as ->.
    { intros o. unfold tokStep; simpl. rewrite emit_pair by apply Hp. reflexivity. }
    rewrite IH by exact Hps. reflexivity.
Qed.

(** X2: a line made of well-formed pairs separated by one space, quoted
    or not, is read back pair by pair: the map is the one the pairs build
    when stored in order, so a later pair overwrites an earlier one with
    the same key. *)
Theorem rendered_pairs_read_back (ps : list Pair) :
  Forall wellFormedPair ps →
  parseLogfmtPairs (renderPairs ps) = storePairs ∅ ps
  ∧ (∀ (front : list Pair) (p : Pair),
       ps = front ++ [p] →
       parseLogfmtPairs (renderPairs ps) !! keyText (pairKey p)
       = Some (VString (pairValue p))).
Proof.
  intros Hall.
  assert (parseLogfmtPairs (renderPairs ps) = storePairs ∅ ps) as Heq
    by (apply (tokLoop_renderPairs ps None ∅ Hall)).
  split; [exact Heq|].
  intros front p ->. rewrite Heq. unfold storePairs.
  rewrite foldl_app. simpl. apply lookup_insert_eq.
Qed.

(** X3: a quote that is never closed does not lose the value: everything
    after the opening quote up to the end of the line, spaces included, is
    the value. *)
Theorem unterminated_quote_keeps_rest (k v : string) :
  k ≠ EmptyString → Contains k "=" = false → quotesEscaped dquote v = true →
  parseLogfmtPairs (k +:+ "=" +:+ String dquote v) = {[ keyText k := VString v ]}
  ∧ inQuotes (tokLoop None (k +:+ "=" +:+ String dquote v) tokInit) = true.
Proof.
  intros Hk Hnoeq Hv.
  assert (tokLoop None (k +:+ "=" +:+ String dquote v) tokInit
          = mkTok ∅ (keyText k) v true false) as Hrun.
  { rewrite tokLoop_app.
    rewrite (tokLoop_key k None tokInit) by (reflexivity || exact Hnoeq).
    cbn [pairs key value tokInit]. change (EmptyString +:+ keyText k) with (keyText k).
    rewrite app_cons. change (EmptyString +:+ ?s) with s. cbn [tokLoop].
    assert (∀ o, tokStep o "="%char (mkTok ∅ (keyText k) EmptyString false true)
                 = mkTok ∅ (keyText k) EmptyString false false) as -> by reflexivity.
    assert (tokStep (Some "="%char) dquote (mkTok ∅ (keyText k) EmptyString false false)
            = mkTok ∅ (keyText k) EmptyString true false) as -> by reflexivity.
    rewrite (tokLoop_quoted v dquote) by (reflexivity || exact Hv). reflexivity. }
  unfold parseLogfmtPairs. rewrite Hrun. split; [|reflexivity].
  unfold emit; simpl.
  rewrite eqb_empty_false by (apply keyText_nonempty, Hk). reflexivity.
Qed.

(** ** The bytes of a key *)

(** [string(ch)] can be read back: the key bytes are a prefix code. *)
Lemma decodeHead_string_of_byte (c : ascii) (s : string) :
  decodeHead (string_of_byte c +:+ s) = Some (c, s).
Proof. destruct c as [[] [] [] [] [] [] [] []]; reflexivity. Qed.

Lemma keyText_inj (a b : string) : keyText a = keyText b → a = b.
Proof.
  revert b. induction a as [|c a IH]; intros [|d b] H; simpl in H.
  - reflexivity.
  - apply (f_equal decodeHead) in H. rewrite decodeHead_string_of_byte in H.
    discriminate.
  - apply (f_equal decodeHead) in H. rewrite decodeHead_string_of_byte in H.
    discriminate.
  - apply (f_equal decodeHead) in H. rewrite !decodeHead_string_of_byte in H.
    injection H as -> H. f_equal. apply IH, H.
Qed.

Lemma keyText_length (k : string) :
  (String.length k ≤ String.length (keyText k))%nat
  ∧ (isASCII k = false → (String.length k < String.length (keyText k))%nat).
Proof.
  induction k as [|c k [IHle IHlt]]; simpl.
  - split; [lia | discriminate].
  - rewrite app_length_str. unfold string_of_byte, RuneSelf.
    destruct (byte_val c <? 128); simpl.
    + split; [lia|]. intros H. specialize (IHlt H). lia.
    + split; [lia|]. intros _. lia.
Qed.

Lemma keyText_fixed (k : string) : keyText k = k ↔ isASCII k = true.
Proof.
  split; [|apply keyText_ascii].
  intros H. destruct (isASCII k) eqn:Hk; [reflexivity|].
  destruct (keyText_length k) as [_ Hlt]. specialize (Hlt Hk).
  rewrite H in Hlt. lia.
Qed.

Lemma parse_plain_pair (k v : string) :
  k ≠ EmptyString → Contains k "=" = false → plainValue v = true →
  parseLogfmtPairs (k +:+ "=" +:+ v) = {[ keyText k := VString v ]}.
Proof.
  intros Hk Hnoeq Hv.
  pose proof (tokLoop_renderPairs [mkPair k v false] None ∅) as H.
  rewrite <- insert_empty. apply H.
  constructor; [|constructor]. repeat split; assumption.
Qed.

(** X4: the key of a pair is stored through [string(ch)], byte by byte.
    This never makes two keys one: two plain pairs give the same map only
    when their keys and values are the same.  The key is found under its
    own bytes iff all of them are below 0x80. *)
Theorem key_bytes_never_merge (k1 k2 v1 v2 : string) :
  k1 ≠ EmptyString → Contains k1 "=" = false → plainValue v1 = true →
  k2 ≠ EmptyString → Contains k2 "=" = false → plainValue v2 = true →
  (parseLogfmtPairs (k1 +:+ "=" +:+ v1) = parseLogfmtPairs (k2 +:+ "=" +:+ v2) →
   k1 = k2 ∧ v1 = v2)
  ∧ (parseLogfmtPairs (k1 +:+ "=" +:+ v1) !! k1 = Some (VString v1)
     ↔ isASCII k1 = true).
Proof.
  intros Hk1 He1 Hv1 Hk2 He2 Hv2.
  rewrite !parse_plain_pair by assumption. split.
  - intros H. apply map_singleton_inj in H as [Hk Hv].
    split; [apply keyText_inj, Hk | congruence].
  - rewrite <- keyText_fixed. split.
    + intros H. apply lookup_singleton_Some in H as [H _]. exact H.
    + intros H. rewrite H. apply lookup_singleton_eq.
Qed.

(** ** More on levels and on JSON lines *)

Section LevelFacts.
Context `{RT : GoRuntime}.

Lemma ParseLevel_canonical (s : string) : ParseLevel s ∈ canonicalLevels.
Proof.
  unfold ParseLevel, LevelInfo, canonicalLevels.
  repeat match goal with
         | |- context [String.eqb ?a ?b] => destruct (String.eqb a b); simpl
         end; set_solver.
Qed.

Lemma asciiUpper_idemp (c : ascii) : asciiUpper (asciiUpper c) = asciiUpper c.
Proof. destruct c as [[] [] [] [] [] [] [] []]; reflexivity. Qed.

Lemma asciiUpper_ascii (c : ascii) :
  (byte_val (asciiUpper c) <? RuneSelf) = (byte_val c <? RuneSelf).
Proof. destruct c as [[] [] [] [] [] [] [] []]; reflexivity. Qed.

Lemma mapBytes_asciiUpper_idemp (s : string) :
  mapBytes asciiUpper (mapBytes asciiUpper s) = mapBytes asciiUpper s.
Proof.
  induction s as [|c s IH]; [reflexivity|]. simpl.
  rewrite asciiUpper_idemp, IH. reflexivity.
Qed.

Lemma isASCII_mapBytes_asciiUpper (s : string) :
  isASCII (mapBytes asciiUpper s) = isASCII s.
Proof.
  induction s as [|c s IH]; [reflexivity|]. simpl.
  rewrite asciiUpper_ascii, IH. reflexivity.
Qed.

(** X5: normalising a level twice changes nothing, and on ASCII input the
    case of the letters does not matter: the upper-cased string has the
    level of the string. *)
Theorem ParseLevel_idempotent (s : string) :
  ParseLevel (ParseLevel s) = ParseLevel s
  ∧ (isASCII s = true → ParseLevel (ToUpper s) = ParseLevel s).
Proof.
  split.
  - pose proof (ParseLevel_canonical s) as H. unfold canonicalLevels in H.
    repeat (apply elem_of_cons in H as [->|H]); try reflexivity. inversion H.
  - intros Hs. unfold ParseLevel, ToUpper. rewrite Hs.
    rewrite isASCII_mapBytes_asciiUpper, Hs, mapBytes_asciiUpper_idemp. reflexivity.
Qed.

End LevelFacts.

Section MoreJSONFacts.
Context `{RT : GoRuntime}.

Lemma firstString_Some_iff (keys : list string) (raw : gmap string Value)
    (k s : string) :
  firstString keys raw = Some (k, s)
  ↔ ∃ i : nat,
      keys !! i = Some k ∧ raw !! k = Some (VString s)
      ∧ ∀ (j : nat) (k' s' : string),
          (j < i)%nat → keys !! j = Some k' → raw !! k' ≠ Some (VString s').
Proof.
  induction keys as [|a keys IH]; simpl.
  - split; [discriminate | intros (i & Hi & _); destruct i; discriminate].
  - destruct (raw !! a) as [va|] eqn:Ha.
    + assert ((∃ sa, va = VString sa) ∨ (∀ sa, va ≠ VString sa)) as [[sa ->]|Hns]
        by (destruct va; eauto; right; discriminate).
      * split.
        -- intros [= <- <-]. exists 0%nat. repeat split; auto. intros; lia.
        -- intros (i & Hi & Hv & Hmin). destruct i as [|i].
           ++ injection Hi as <-. congruence.
           ++ exfalso. apply (Hmin 0%nat a sa); [lia | reflexivity | exact Ha].
      * assert (match va with VString s0 => Some (a, s0) | _ => firstString keys raw end
                = firstString keys raw) as ->
          by (destruct va; try reflexivity; exfalso; eapply Hns; reflexivity).
        rewrite IH. split.
        -- intros (i & Hi & Hv & Hmin). exists (S i). repeat split; auto.
           intros [|j] k' s' Hj Hk'.
           ++ injection Hk' as <-. rewrite Ha. intros [= ->]. apply (Hns s' eq_refl).
           ++ apply (Hmin j); [lia | exact Hk'].
        -- intros (i & Hi & Hv & Hmin). destruct i as [|i].
           ++ injection Hi as <-. rewrite Ha in Hv. injection Hv as ->.
              exfalso. apply (Hns s eq_refl).
           ++ exists i. repeat split; auto.
              intros j k' s' Hj Hk'. apply (Hmin (S j)); [lia | exact Hk'].
    + rewrite IH. split.
      * intros (i & Hi & Hv & Hmin). exists (S i). repeat split; auto.
        intros [|j] k' s' Hj Hk'.
        -- injection Hk' as <-. rewrite Ha. discriminate.
        -- apply (Hmin j); [lia | exact Hk'].
      * intros (i & Hi & Hv & Hmin). destruct i as [|i].
        -- injection Hi as <-. congruence.
        -- exists i. repeat split; auto.
           intros j k' s' Hj Hk'. apply (Hmin (S j)); [lia | exact Hk'].
Qed.

Lemma firstString_None_iff (keys : list string) (raw : gmap string Value) :
  firstString keys raw = None
  ↔ ∀ k s : string, k ∈ keys → raw !! k ≠ Some (VString s).
Proof.
  induction keys as [|a keys IH]; simpl.
  - split; [intros _ k s Hk; inversion Hk | reflexivity].
  - destruct (raw !! a) as [va|] eqn:Ha.
    + destruct va; try (rewrite IH; split;
        [ intros H k s Hk; apply elem_of_cons in Hk as [->|Hk];
          [rewrite Ha; discriminate | apply H, Hk]
        | intros H k s Hk; apply H; right; exact Hk ]).
      split; [discriminate|]. intros H. exfalso. apply (H a s); [left | exact Ha].
    + rewrite IH. split.
      * intros H k s Hk. apply elem_of_cons in Hk as [->|Hk];
          [rewrite Ha; discriminate | apply H, Hk].
      * intros H k s Hk. apply H. right. exact Hk.
Qed.

(** X6: for a line that decodes into the map [raw], the level is that of
    the first of level, severity, log.level that holds a string, and INFO
    when none does; the message is the first of message, msg, log that
    holds a string, and empty when none does.  The key used is removed
    from the fields; a candidate that holds something else than a string
    is passed over and stays a field.  The level is always canonical. *)
Theorem parseJSONLine_level_and_message
    (line : string) (raw : gmap string Value) (n : nat) :
  TrimSpace line ≠ EmptyString →
  json_Unmarshal (TrimSpace line) = inr raw →
  ∃ (entry : LogEntry) (n' : nat),
    parseJSONLine line n = (Ok entry, n')
    ∧ (∀ (i : nat) (k s : string),
         jsonLevelKeys !! i = Some k → raw !! k = Some (VString s) →
         (∀ (j : nat) (k' s' : string),
            (j < i)%nat → jsonLevelKeys !! j = Some k' →
            raw !! k' ≠ Some (VString s')) →
         Level entry = ParseLevel s ∧ Fields entry !! k = None)
    ∧ ((∀ k s : string, k ∈ jsonLevelKeys → raw !! k ≠ Some (VString s)) →
       Level entry = "INFO")
    ∧ (∀ (i : nat) (k s : string),
         jsonMessageKeys !! i = Some k → raw !! k = Some (VString s) →
         (∀ (j : nat) (k' s' : string),
            (j < i)%nat → jsonMessageKeys !! j = Some k' →
            raw !! k' ≠ Some (VString s')) →
         Message entry = s ∧ Fields entry !! k = None)
    ∧ ((∀ k s : string, k ∈ jsonMessageKeys → raw !! k ≠ Some (VString s)) →
       Message entry = EmptyString)
    ∧ (∀ (k : string) (v : Value),
         k ∈ jsonLevelKeys ++ jsonMessageKeys → raw !! k = Some v →
         (∀ s : string, v ≠ VString s) → Fields entry !! k = Some v)
    ∧ Level entry ∈ canonicalLevels.
Proof.
  intros Hne Hraw. eexists _, _.
  split; [exact (parseJSONLine_decoded line raw n Hne Hraw)|].
  cbn [Level Message Fields].
  assert (∀ k : string,
            foldr delete raw (liftedKeys raw) !! k
            = if bool_decide (k ∈ liftedKeys raw) then None else raw !! k) as Hfields
    by (intros k; apply lookup_foldr_delete_keys).
  split; [|split; [|split; [|split; [|split]]]].
  - intros i k s Hi Hv Hmin.
    assert (firstString jsonLevelKeys raw = Some (k, s)) as Hl
      by (apply firstString_Some_iff; eauto).
    rewrite Hl. split; [reflexivity|]. rewrite Hfields.
    rewrite bool_decide_eq_true_2; [reflexivity|].
    unfold liftedKeys. rewrite Hl. rewrite !elem_of_app. right. left. left.
  - intros Hnone. apply firstString_None_iff in Hnone. rewrite Hnone. reflexivity.
  - intros i k s Hi Hv Hmin.
    assert (firstString jsonMessageKeys raw = Some (k, s)) as Hm
      by (apply firstString_Some_iff; eauto).
    rewrite Hm. split; [reflexivity|]. rewrite Hfields.
    rewrite bool_decide_eq_true_2; [reflexivity|].
    unfold liftedKeys. rewrite Hm. rewrite !elem_of_app. right. right. left.
  - intros Hnone. apply firstString_None_iff in Hnone. rewrite Hnone. reflexivity.
  - intros k v Hk Hv Hns. rewrite Hfields.
    rewrite bool_decide_eq_false_2; [exact Hv|].
    intros Hin. apply liftedKeys_lifted in Hin as [[Hin _]|[_ [s Hs]]].
    + rewrite elem_of_app in Hk. destruct (json_keys_disjoint k) as [Hd _].
      destruct (Hd Hin) as [HnL HnM]. tauto.
    + rewrite Hv in Hs. injection Hs as ->. apply (Hns s eq_refl).
  - destruct (firstString jsonLevelKeys raw) as [[kl sl]|].
    + apply ParseLevel_canonical.
    + unfold LevelInfo, canonicalLevels. set_solver.
Qed.

End MoreJSONFacts.

(** ** More on logfmt lines *)

Section LogfmtFacts.
Context `{RT : GoRuntime}.

Lemma delete3 (a b c : string) (m : gmap string Value) :
  delete c (delete b (delete a m)) = delete a (delete b (delete c m)).
Proof.
  rewrite (delete_delete _ c b), (delete_delete _ c a), (delete_delete _ b a).
  reflexivity.
Qed.

Lemma logfmt_keys_disjoint (k : string) :
  k ∈ logfmtTimestampKeys → k ≠ "level" ∧ (k ∉ logfmtMessageKeys).
Proof.
  unfold logfmtTimestampKeys, logfmtMessageKeys. intros H.
  repeat (apply elem_of_cons in H as [->|H]); try (inversion H; fail);
    (split; [discriminate|]); intros H';
    repeat (apply elem_of_cons in H' as [H'|H']); try discriminate; inversion H'.
Qed.

Lemma level_not_message_key : "level" ∉ logfmtMessageKeys.
Proof.
  unfold logfmtMessageKeys. intros H.
  repeat (apply elem_of_cons in H as [H|H]); try discriminate. inversion H.
Qed.

Lemma firstTimestamp_key (keys : list string) (raw : gmap string Value)
    (k : string) (t : Time) :
  firstTimestamp keys raw = Some (k, t) → k ∈ keys.
Proof.
  intros H. apply firstTimestamp_Some in H as (i & v & Hi & _).
  eapply list_elem_of_lookup_2, Hi.
Qed.

(** What [parseLogfmtLine] returns, from the pairs of the trimmed line. *)
Lemma parseLogfmtLine_decoded (line : string) (n : nat) :
  TrimSpace line ≠ EmptyString →
  let P := parseLogfmtPairs (TrimSpace line) in
  let t0 := match firstTimestamp logfmtTimestampKeys P with
            | Some (_, t) => t
            | None => zeroTime
            end in
  parseLogfmtLine line n
  = ( Ok (mkLogEntry
            (if IsZero t0 then time_Now n else t0)
            (match P !! "level" with
             | Some (VString s) => ParseLevel s
             | _ => "INFO"
             end)
            (match firstString logfmtMessageKeys P with
             | Some (_, s) => s
             | None => EmptyString
             end)
            (foldr delete P (logfmtLiftedKeys P))),
      if IsZero t0 then S n else n ).
Proof.
  intros Hne. cbv zeta. unfold parseLogfmtLine, logfmtLiftedKeys.
  rewrite eqb_empty_false by exact Hne.
  generalize (parseLogfmtPairs (TrimSpace line)). intros P.
  unfold extractLogfmtTimestamp.
  change ["timestamp"; "time"; "ts"] with logfmtTimestampKeys.
  destruct (firstTimestamp logfmtTimestampKeys P) as [[kt t]|] eqn:Hts.
  - apply firstTimestamp_key in Hts.
    destruct (logfmt_keys_disjoint kt Hts) as [HnL HnM].
    unfold extractLogfmtLevel. rewrite lookup_delete_ne by exact HnL.
    unfold extractLogfmtMessage.
    change ["msg"; "message"] with logfmtMessageKeys.
    destruct (P !! "level") as [[| | |sl| |]|];
      rewrite ?(firstString_delete _ _ _ level_not_message_key),
        (firstString_delete _ _ _ HnM);
      destruct (firstString logfmtMessageKeys P) as [[km sm]|];
      unfold setFields, setLevel, setMessage, setTimestamp;
      cbn [Timestamp Level Message Fields keyOf app foldr];
      rewrite copyFields_empty;
      destruct (IsZero t); unfold bind, now, ret;
      cbn [Timestamp Level Message Fields];
      first [ reflexivity
            | do 3 f_equal; first [ apply delete_delete | apply delete3 ] ].
  - unfold extractLogfmtLevel, extractLogfmtMessage.
    change ["msg"; "message"] with logfmtMessageKeys.
    destruct (P !! "level") as [[| | |sl| |]|];
      rewrite ?(firstString_delete _ _ _ level_not_message_key);
      destruct (firstString logfmtMessageKeys P) as [[km sm]|];
      unfold setFields, setLevel, setMessage, setTimestamp;
      cbn [Timestamp Level Message Fields keyOf app foldr];
      rewrite copyFields_empty;
      change (IsZero zeroTime) with true; unfold bind, now, ret;
      cbn [Timestamp Level Message Fields];
      first [ reflexivity | do 3 f_equal; apply delete_delete ].
Qed.

Lemma logfmtLiftedKeys_sub (P : gmap string Value) (k : string) :
  k ∈ logfmtLiftedKeys P → k ∈ logfmtKeys.
Proof.
  unfold logfmtLiftedKeys. rewrite !elem_of_app. intros [H|[H|H]].
  - destruct (firstTimestamp logfmtTimestampKeys P) as [[kt t]|] eqn:Hts;
      [|inversion H].
    apply list_elem_of_singleton in H as ->. apply firstTimestamp_key in Hts.
    apply list_elem_of_In in Hts. apply list_elem_of_In. simpl in *. tauto.
  - destruct (P !! "level") as [[| | |sl| |]|]; try (inversion H; fail).
    apply list_elem_of_singleton in H as ->.
    apply list_elem_of_In. simpl. tauto.
  - destruct (firstString logfmtMessageKeys P) as [[km sm]|] eqn:Hm; [|inversion H].
    apply list_elem_of_singleton in H as ->. apply firstString_Some in Hm as [Hin _].
    apply list_elem_of_In in Hin. apply list_elem_of_In. simpl in *. tauto.
Qed.

End LogfmtFacts.

Section LogfmtExtraction.
Context `{RT : GoRuntime}.

Lemma logfmtLiftedKeys_elem (P : gmap string Value) (k : string) :
  k ∈ logfmtLiftedKeys P
  ↔ (∃ t, firstTimestamp logfmtTimestampKeys P = Some (k, t))
    ∨ (k = "level" ∧ ∃ s, P !! "level" = Some (VString s))
    ∨ (∃ s, firstString logfmtMessageKeys P = Some (k, s)).
Proof.
  unfold logfmtLiftedKeys. rewrite !elem_of_app.
  assert (∀ (A : Type) (r : option (string * A)),
            k ∈ keyOf r ↔ ∃ a, r = Some (k, a)) as HkeyOf.
  { intros A [[k' a]|]; simpl.
    - rewrite list_elem_of_singleton. split; [intros ->; eauto | intros [a' [= -> _]]; reflexivity].
    - split; [intros H; inversion H | intros [a H]; discriminate]. }
  rewrite !HkeyOf.
  assert (k ∈ match P !! "level" with
              | Some (VString _) => ["level"]
              | _ => []
              end
          ↔ k = "level" ∧ ∃ s, P !! "level" = Some (VString s)) as ->.
  { destruct (P !! "level") as [[| | |sl| |]|];
      try (split; [intros H; inversion H | intros [_ [s H]]; discriminate]).
    rewrite list_elem_of_singleton. split; [intros ->; eauto | intros [-> _]; reflexivity]. }
  reflexivity.
Qed.

Lemma firstString_msg_message (P : gmap string Value) :
  firstString logfmtMessageKeys P
  = match P !! "msg" with
    | Some (VString s) => Some ("msg", s)
    | _ => match P !! "message" with
           | Some (VString s) => Some ("message", s)
           | _ => None
           end
    end.
Proof. reflexivity. Qed.

(** X7: in a logfmt line the level is that of the pair [level], INFO
    without one; the message is the value of [msg], of [message] when
    there is no [msg], and empty without both.  The pair used is removed
    from the fields: when both [msg] and [message] are there, [message]
    stays a field.  Keys other than timestamp, time, ts, level, msg,
    message are never lifted (the JSON names severity and log are plain
    fields here), and every field is a string of the line. *)
Theorem parseLogfmtLine_level_message_fields (line : string) (n : nat) :
  TrimSpace line ≠ EmptyString →
  ∃ (entry : LogEntry) (n' : nat),
    parseLogfmtLine line n = (Ok entry, n')
    ∧ (∀ s : string,
         parseLogfmtPairs (TrimSpace line) !! "level" = Some (VString s) →
         Level entry = ParseLevel s ∧ Fields entry !! "level" = None)
    ∧ (parseLogfmtPairs (TrimSpace line) !! "level" = None → Level entry = "INFO")
    ∧ (∀ s : string,
         parseLogfmtPairs (TrimSpace line) !! "msg" = Some (VString s) →
         Message entry = s ∧ Fields entry !! "msg" = None
         ∧ Fields entry !! "message" = parseLogfmtPairs (TrimSpace line) !! "message")
    ∧ (∀ s : string,
         parseLogfmtPairs (TrimSpace line) !! "msg" = None →
         parseLogfmtPairs (TrimSpace line) !! "message" = Some (VString s) →
         Message entry = s ∧ Fields entry !! "message" = None)
    ∧ (parseLogfmtPairs (TrimSpace line) !! "msg" = None →
       parseLogfmtPairs (TrimSpace line) !! "message" = None →
       Message entry = EmptyString)
    ∧ (∀ k : string,
         k ∉ logfmtKeys →
         Fields entry !! k = parseLogfmtPairs (TrimSpace line) !! k)
    ∧ (∀ (k : string) (v : Value),
         Fields entry !! k = Some v →
         parseLogfmtPairs (TrimSpace line) !! k = Some v ∧ ∃ s : string, v = VString s)
    ∧ Level entry ∈ canonicalLevels.
Proof.
  intros Hne. eexists _, _.
  split; [exact (parseLogfmtLine_decoded line n Hne)|].
  cbn [Level Message Fields].
  pose proof (parseLogfmtPairs_pairsOK (TrimSpace line)) as HOK.
  set (P := parseLogfmtPairs (TrimSpace line)) in *.
  assert (∀ k : string,
            foldr delete P (logfmtLiftedKeys P) !! k
            = if bool_decide (k ∈ logfmtLiftedKeys P) then None else P !! k) as Hfields
    by (intros k; apply lookup_foldr_delete_keys).
  assert (∀ k, k ∈ logfmtLiftedKeys P → foldr delete P (logfmtLiftedKeys P) !! k = None)
    as Hin by (intros k Hk; rewrite Hfields, bool_decide_eq_true_2 by exact Hk; reflexivity).
  assert (∀ k, k ∉ logfmtLiftedKeys P → foldr delete P (logfmtLiftedKeys P) !! k = P !! k)
    as Hout by (intros k Hk; rewrite Hfields, bool_decide_eq_false_2 by exact Hk; reflexivity).
  rewrite firstString_msg_message.
  split; [|split; [|split; [|split; [|split; [|split; [|split]]]]]].
  - intros s Hs. rewrite Hs. split; [reflexivity|].
    apply Hin, logfmtLiftedKeys_elem. right. left. eauto.
  - intros Hs. rewrite Hs. reflexivity.
  - intros s Hs. rewrite Hs. split; [reflexivity|]. split.
    + apply Hin, logfmtLiftedKeys_elem. right. right. exists s.
      rewrite firstString_msg_message, Hs. reflexivity.
    + apply Hout. rewrite logfmtLiftedKeys_elem, firstString_msg_message, Hs.
      intros [[t Ht]|[[H _]|[s' H]]]; try discriminate.
      apply firstTimestamp_key in Ht. apply list_elem_of_In in Ht.
      simpl in Ht. intuition discriminate.
  - intros s Hmsg Hs. rewrite Hmsg, Hs. split; [reflexivity|].
    apply Hin, logfmtLiftedKeys_elem. right. right. exists s.
    rewrite firstString_msg_message, Hmsg, Hs. reflexivity.
  - intros Hmsg Hs. rewrite Hmsg, Hs. reflexivity.
  - intros k Hk. apply Hout. intros Hl. apply Hk, (logfmtLiftedKeys_sub P k Hl).
  - intros k v Hk. rewrite Hfields in Hk.
    destruct (bool_decide (k ∈ logfmtLiftedKeys P)); [discriminate|].
    split; [exact Hk|]. apply (HOK k v Hk).
  - destruct (P !! "level") as [[| | |sl| |]|];
      try (apply list_elem_of_In; simpl; tauto).
    apply ParseLevel_canonical.
Qed.

(** X8: in a logfmt line the keys timestamp, time, ts are tried in this
    order and the first whose value parses is removed.  Its instant is
    the timestamp unless it is the zero instant, which the clock reading
    replaces; without such a key the timestamp is the clock reading and
    the pairs whose value did not parse stay fields. *)
Theorem parseLogfmtLine_timestamp (line : string) (n : nat) :
  TrimSpace line ≠ EmptyString →
  ∃ (entry : LogEntry) (n' : nat),
    parseLogfmtLine line n = (Ok entry, n')
    ∧ (∀ (i : nat) (k : string) (v : Value) (t : Time),
         logfmtTimestampKeys !! i = Some k →
         parseLogfmtPairs (TrimSpace line) !! k = Some v →
         parseTimestamp v = Ok t →
         (∀ (j : nat) (k' : string) (v' : Value),
            (j < i)%nat → logfmtTimestampKeys !! j = Some k' →
            parseLogfmtPairs (TrimSpace line) !! k' = Some v' →
            isOk (parseTimestamp v') = false) →
         Fields entry !! k = None
         ∧ Timestamp entry = (if IsZero t then time_Now n else t)
         ∧ n' = (if IsZero t then S n else n))
    ∧ ((∀ (k : string) (v : Value),
          k ∈ logfmtTimestampKeys →
          parseLogfmtPairs (TrimSpace line) !! k = Some v →
          isOk (parseTimestamp v) = false) →
       Timestamp entry = time_Now n ∧ n' = S n
       ∧ ∀ k : string,
           k ∈ logfmtTimestampKeys →
           Fields entry !! k = parseLogfmtPairs (TrimSpace line) !! k).
Proof.
  intros Hne. eexists _, _.
  split; [exact (parseLogfmtLine_decoded line n Hne)|].
  cbn [Timestamp Fields].
  set (P := parseLogfmtPairs (TrimSpace line)) in *.
  assert (∀ k : string,
            foldr delete P (logfmtLiftedKeys P) !! k
            = if bool_decide (k ∈ logfmtLiftedKeys P) then None else P !! k) as Hfields
    by (intros k; apply lookup_foldr_delete_keys).
  split.
  - intros i k v t Hi Hv Hp Hmin.
    assert (firstTimestamp logfmtTimestampKeys P = Some (k, t)) as Hts
      by (apply firstTimestamp_Some; exists i, v; auto).
    rewrite Hts. split; [|split; reflexivity].
    rewrite Hfields, bool_decide_eq_true_2; [reflexivity|].
    apply logfmtLiftedKeys_elem. left. eauto.
  - intros Hnone. apply firstTimestamp_None in Hnone. rewrite Hnone.
    change (IsZero zeroTime) with true. cbv iota.
    split; [reflexivity|]. split; [reflexivity|].
    intros k Hk. rewrite Hfields, bool_decide_eq_false_2; [reflexivity|].
    rewrite logfmtLiftedKeys_elem, Hnone.
    destruct (logfmt_keys_disjoint k Hk) as [HnL HnM].
    intros [[t Ht]|[[H _]|[s H]]]; [discriminate | contradiction |].
    apply firstString_Some in H as [H _]. contradiction.
Qed.

End LogfmtExtraction.

(** ** More on batches *)

Section MoreBatchFacts.
Context `{RT : GoRuntime}.

Lemma forLines_acc (f : string → M LogEntry) (lines : list string) :
  ∀ (acc : list LogEntry) (n : nat),
    forLines f lines acc n
    = match forLines f lines [] n with
      | (Ok es, n1) => (Ok (acc ++ es), n1)
      | (Err e, n1) => (Err e, n1)
      end.
Proof.
  induction lines as [|l ls IH]; intros acc n; cbn [forLines].
  - unfold ret. rewrite app_nil_r. reflexivity.
  - unfold bind. destruct (f l n) as [[entry|e] n1]; [|reflexivity].
    rewrite (IH (acc ++ [entry])), (IH ([] ++ [entry])).
    destruct (forLines f ls [] n1) as [[es|e] n2]; [|reflexivity].
    rewrite <- app_assoc. reflexivity.
Qed.

Lemma forLines_app (f : string → M LogEntry) (l1 l2 : list string) (n : nat) :
  forLines f (l1 ++ l2) [] n = andThen (forLines f l1 []) (forLines f l2 []) n.
Proof.
  unfold andThen. revert n. induction l1 as [|l ls IH]; intros n.
  - cbn [app forLines]. unfold ret.
    destruct (forLines f l2 [] n) as [[es|e] n1]; reflexivity.
  - cbn [app forLines]. unfold bind.
    destruct (f l n) as [[entry|e] n1]; [|reflexivity].
    rewrite (forLines_acc f (ls ++ l2)), (forLines_acc f ls), IH.
    destruct (forLines f ls [] n1) as [[e1|e] n2]; [|reflexivity].
    destruct (forLines f l2 [] n2) as [[e2|e] n3]; [|reflexivity].
    rewrite app_assoc. reflexivity.
Qed.

(** On success the records are those of the lines, in order. *)
Lemma forLines_Ok (f : string → M LogEntry) (lines : list string) :
  ∀ (n n' : nat) (es : list LogEntry),
    forLines f lines [] n = (Ok es, n') →
    Forall2 (λ line e, ∃ m m', f line m = (Ok e, m')) lines es.
Proof.
  induction lines as [|l ls IH]; intros n n' es; cbn [forLines].
  - intros [= <- <-]. constructor.
  - unfold bind. destruct (f l n) as [[entry|e] n1] eqn:Hl; [|discriminate].
    rewrite forLines_acc.
    destruct (forLines f ls [] n1) as [[es'|e] n2] eqn:Hls; [|discriminate].
    intros [= <- <-]. simpl. constructor; [eauto | eapply IH, Hls].
Qed.

(** The clock is read at most once per line when each line reads it at
    most once. *)
Lemma forLines_clock (f : string → M LogEntry) (lines : list string) :
  (∀ line m e m', f line m = (Ok e, m') → (m ≤ m' ≤ S m)%nat) →
  ∀ (n n' : nat) (es : list LogEntry),
    forLines f lines [] n = (Ok es, n') → (n ≤ n' ≤ n + length lines)%nat.
Proof.
  intros Hf. induction lines as [|l ls IH]; intros n n' es; cbn [forLines].
  - intros [= <- <-]. simpl. lia.
  - unfold bind. destruct (f l n) as [[entry|e] n1] eqn:Hl; [|discriminate].
    rewrite forLines_acc.
    destruct (forLines f ls [] n1) as [[es'|e] n2] eqn:Hls; [|discriminate].
    intros [= <- <-]. apply Hf in Hl. apply IH in Hls. simpl. lia.
Qed.

Lemma detectFormat_range (samples : list string) :
  detectFormat samples = FormatJSON ∨ detectFormat samples = FormatLogfmt
  ∨ detectFormat samples = FormatText.
Proof.
  unfold detectFormat.
  repeat match goal with
         | |- context [if ?b then _ else _] => destruct b
         end; auto.
Qed.

Lemma lineParser_cases (f : Format) :
  (f = FormatJSON ∧ lineParser f = parseJSONLine)
  ∨ (f = FormatLogfmt ∧ lineParser f = parseLogfmtLine)
  ∨ (f ≠ FormatJSON ∧ f ≠ FormatLogfmt
     ∧ lineParser f = λ line, parseTextLine line initTextPatterns).
Proof.
  unfold lineParser.
  destruct (Z.eqb_spec f FormatJSON) as [->|H1]; [left; split; reflexivity|].
  destruct (Z.eqb_spec f FormatLogfmt) as [->|H2]; [right; left; split; reflexivity|].
  right. right. auto.
Qed.

(** [parseLines] is the loop over the lines with the line parser of the
    format it works with. *)
Lemma parseLines_forLines (p : parser) (lines : list string) (n : nat) :
  parseLines p lines n = forLines (lineParser (effectiveFormat p lines)) lines [] n.
Proof.
  unfold parseLines, effectiveFormat.
  destruct lines as [|l ls]; [reflexivity|]. cbn [length Nat.eqb].
  set (lines := l :: ls).
  destruct (Z.eqb_spec (format p) FormatAuto) as [Ha|Ha].
  - destruct (detectFormat_range lines) as [-> | [-> | ->]]; reflexivity.
  - destruct (Z.eqb_spec (format p) FormatAuto) as [|_]; [contradiction|].
    unfold lineParser, parseJSON, parseLogfmt, parseText.
    destruct (format p =? FormatJSON); [reflexivity|].
    destruct (format p =? FormatLogfmt); [reflexivity|].
    destruct (format p =? FormatText); reflexivity.
Qed.

Lemma applyPattern_level (p : textPattern) (m : list string) (e : LogEntry) :
  Level e ∈ canonicalLevels → Level (applyPattern p m e) ∈ canonicalLevels.
Proof.
  intros He. unfold applyPattern.
  repeat match goal with
         | |- context [if ?b then _ else _] => destruct b
         | |- context [match ?o with Some _ => _ | None => _ end] => destruct o
         end; cbn [Level setTimestamp setLevel setMessage];
    first [exact He | apply ParseLevel_canonical].
Qed.

Lemma tryPatterns_level (ps : list textPattern) (l : string) (e : LogEntry) :
  Level e ∈ canonicalLevels → Level (tryPatterns ps l e) ∈ canonicalLevels.
Proof.
  intros He. induction ps as [|p ps IH]; [exact He|]. simpl.
  destruct (FindStringSubmatch (regex p) l); [apply applyPattern_level, He | exact IH].
Qed.

Lemma INFO_canonical : "INFO" ∈ canonicalLevels.
Proof. apply list_elem_of_In. simpl. tauto. Qed.

(** A line parser that succeeds: the line is not empty, the level is
    canonical, the clock is read at most once. *)
Lemma lineParser_Ok (f : Format) (line : string) (n n' : nat) (e : LogEntry) :
  lineParser f line n = (Ok e, n') →
  TrimSpace line ≠ EmptyString ∧ Level e ∈ canonicalLevels ∧ (n ≤ n' ≤ S n)%nat.
Proof.
  destruct (lineParser_cases f) as [[_ ->] | [[_ ->] | (_ & _ & ->)]].
  - unfold parseJSONLine.
    destruct (String.eqb_spec (TrimSpace line) EmptyString) as [He|Hne];
      [discriminate|].
    destruct (json_Unmarshal (TrimSpace line)) as [c|raw] eqn:Hraw; [discriminate|].
    pose proof (parseJSONLine_decoded line raw n Hne Hraw) as Hd.
    unfold parseJSONLine in Hd. rewrite eqb_empty_false, Hraw in Hd by exact Hne.
    assert (match firstString jsonLevelKeys raw with
            | Some (_, s) => ParseLevel s
            | None => LevelInfo
            end ∈ canonicalLevels) as HL
      by (destruct (firstString jsonLevelKeys raw) as [[k s]|];
          [apply ParseLevel_canonical | apply INFO_canonical]).
    assert (n ≤ match firstTimestamp jsonTimestampKeys raw with
                | Some _ => n
                | None => S n
                end ≤ S n)%nat as Hn
      by (destruct (firstTimestamp jsonTimestampKeys raw); lia).
    rewrite Hd. intros [= <- <-]. split; [exact Hne|]. split; [exact HL | exact Hn].
  - destruct (String.eqb_spec (TrimSpace line) EmptyString) as [He|Hne].
    + unfold parseLogfmtLine. rewrite He. discriminate.
    + pose proof (parseLogfmtLine_decoded line n Hne) as Hd. cbv zeta in Hd.
      assert (match parseLogfmtPairs (TrimSpace line) !! "level" with
              | Some (VString s) => ParseLevel s
              | _ => "INFO"
              end ∈ canonicalLevels) as HL
        by (destruct (parseLogfmtPairs (TrimSpace line) !! "level")
              as [[| | |sl| |]|];
            first [apply ParseLevel_canonical | apply INFO_canonical]).
      revert Hd.
      generalize (match firstTimestamp logfmtTimestampKeys
                          (parseLogfmtPairs (TrimSpace line)) with
                  | Some (_, t) => t
                  | None => zeroTime
                  end).
      intros t0 Hd. rewrite Hd. intros [= <- <-]. split; [exact Hne|].
      split; [exact HL | destruct (IsZero t0); lia].
  - unfold parseTextLine.
    destruct (String.eqb_spec (TrimSpace line) EmptyString) as [He|Hne];
      [discriminate|].
    assert (Level (tryPatterns initTextPatterns (TrimSpace line)
                     (mkLogEntry zeroTime "INFO" (TrimSpace line) ∅))
            ∈ canonicalLevels) as Hlv by (apply tryPatterns_level, INFO_canonical).
    destruct (IsZero _); unfold bind, now, ret; intros [= <- <-];
      (split; [exact Hne|]); (split; [exact Hlv | lia]).
Qed.

(** A line parser fails on an empty line, and on nothing else but a line
    the JSON decoder refuses; it has not read the clock then. *)
Lemma lineParser_Err (f : Format) (line : string) (n n' : nat) (e : error) :
  lineParser f line n = (Err e, n') →
  n' = n
  ∧ ((e = ErrEmptyLine ∧ TrimSpace line = EmptyString)
     ∨ (f = FormatJSON ∧ TrimSpace line ≠ EmptyString
        ∧ ∃ c, json_Unmarshal (TrimSpace line) = inl c ∧ e = ErrInvalidJSON c)).
Proof.
  destruct (lineParser_cases f) as [[-> ->] | [[_ ->] | (_ & _ & ->)]].
  - unfold parseJSONLine.
    destruct (String.eqb_spec (TrimSpace line) EmptyString) as [He|Hne].
    + intros [= <- <-]. auto.
    + destruct (json_Unmarshal (TrimSpace line)) as [c|raw] eqn:Hraw.
      * intros [= <- <-]. split; [reflexivity|]. right. eauto.
      * pose proof (parseJSONLine_decoded line raw n Hne Hraw) as Hd.
        unfold parseJSONLine in Hd. rewrite eqb_empty_false, Hraw in Hd by exact Hne.
        rewrite Hd. discriminate.
  - destruct (String.eqb_spec (TrimSpace line) EmptyString) as [He|Hne].
    + unfold parseLogfmtLine. rewrite He. intros [= <- <-]. auto.
    + rewrite (parseLogfmtLine_decoded line n Hne). discriminate.
  - destruct (String.eqb_spec (TrimSpace line) EmptyString) as [He|Hne].
    + unfold parseTextLine. rewrite He. intros [= <- <-]. auto.
    + destruct (parseTextLine_total line initTextPatterns n Hne) as (e' & m' & ->).
      discriminate.
Qed.

End MoreBatchFacts.

Section BatchProperties.
Context `{RT : GoRuntime}.

Lemma effectiveFormat_fixed (f : Format) (lines : list string) :
  f ≠ FormatAuto → effectiveFormat (NewWithFormat f) lines = f.
Proof.
  intros Hf. unfold effectiveFormat, NewWithFormat; simpl.
  destruct (Z.eqb_spec f FormatAuto); [contradiction | reflexivity].
Qed.

(** X9: when [parseLines] succeeds there is one record per line, in the
    order of the lines, each the record of its line; every level is one of
    the five canonical ones; and the clock was read at most once per
    line. *)
Theorem parseLines_one_record_per_line
    (p : parser) (lines : list string) (n n' : nat) (es : list LogEntry) :
  parseLines p lines n = (Ok es, n') →
  Forall2 (λ line e,
             TrimSpace line ≠ EmptyString ∧ Level e ∈ canonicalLevels
             ∧ ∃ m m', lineParser (effectiveFormat p lines) line m = (Ok e, m'))
    lines es
  ∧ length es = length lines
  ∧ (n ≤ n' ≤ n + length lines)%nat.
Proof.
  rewrite parseLines_forLines. intros Hrun.
  assert (Forall2 (λ line e,
                     TrimSpace line ≠ EmptyString ∧ Level e ∈ canonicalLevels
                     ∧ ∃ m m', lineParser (effectiveFormat p lines) line m = (Ok e, m'))
            lines es) as Hall.
  { eapply Forall2_impl; [eapply forLines_Ok, Hrun|].
    intros line e (m & m' & Hl). destruct (lineParser_Ok _ _ _ _ _ Hl) as (H1 & H2 & _).
    eauto. }
  split; [exact Hall|]. split; [symmetry; eapply Forall2_length, Hall|].
  eapply forLines_clock; [|exact Hrun].
  intros line m e m' Hl. apply (lineParser_Ok _ _ _ _ _ Hl).
Qed.

Lemma parseJSONLine_Ok_decodes (line : string) (n n' : nat) (e : LogEntry) :
  parseJSONLine line n = (Ok e, n') →
  ∃ raw, json_Unmarshal (TrimSpace line) = inr raw.
Proof.
  unfold parseJSONLine.
  destruct (String.eqb (TrimSpace line) EmptyString); [discriminate|].
  destruct (json_Unmarshal (TrimSpace line)) as [c|raw]; [discriminate | eauto].
Qed.

Lemma parseJSONLine_total (line : string) (raw : gmap string Value) (n : nat) :
  TrimSpace line ≠ EmptyString → json_Unmarshal (TrimSpace line) = inr raw →
  ∃ e n', parseJSONLine line n = (Ok e, n').
Proof. intros Hne Hraw. rewrite (parseJSONLine_decoded line raw n Hne Hraw). eauto. Qed.

(** X10: a batch of lines that are not empty is parsed in JSON mode
    without error iff every line decodes; otherwise the error is that of
    the first line that does not decode. *)
Theorem parseJSON_succeeds_iff_all_decode (lines : list string) (n : nat) :
  Forall (λ line, TrimSpace line ≠ EmptyString) lines →
  ((∃ es n', parseJSON lines n = (Ok es, n'))
   ↔ Forall (λ line, ∃ raw, json_Unmarshal (TrimSpace line) = inr raw) lines)
  ∧ (∀ (front back : list string) (bad cause : string),
       lines = front ++ bad :: back →
       Forall (λ line, ∃ raw, json_Unmarshal (TrimSpace line) = inr raw) front →
       json_Unmarshal (TrimSpace bad) = inl cause →
       ∃ n', parseJSON lines n = (Err (ErrInvalidJSON cause), n')).
Proof.
  intros Hne.
  assert (∀ (ls : list string) (m : nat),
            Forall (λ line, TrimSpace line ≠ EmptyString) ls →
            Forall (λ line, ∃ raw, json_Unmarshal (TrimSpace line) = inr raw) ls →
            ∃ es m', forLines parseJSONLine ls [] m = (Ok es, m')) as Hok.
  { intros ls m Hn Hd.
    destruct (forLines_total parseJSONLine ls [] m) as (es & m' & H & _); [|eauto].
    intros line k Hin. rewrite Forall_forall in Hn, Hd.
    destruct (Hd line Hin) as [raw Hraw].
    apply (parseJSONLine_total line raw k (Hn line Hin) Hraw). }
  split.
  - split.
    + intros (es & n' & Hrun). apply forLines_Ok in Hrun.
      apply Forall_forall. intros line Hin.
      apply list_elem_of_lookup in Hin as [i Hi].
      destruct (Forall2_lookup_l _ _ _ _ _ Hrun Hi) as (e & _ & m & m' & Hl).
      apply (parseJSONLine_Ok_decodes _ _ _ _ Hl).
    + intros Hd. apply (Hok lines n Hne Hd).
  - intros front back bad cause -> Hfront Hbad. unfold parseJSON.
    apply Forall_app in Hne as [Hnf Hnb]. inversion Hnb as [|? ? Hbadne _]; subst.
    rewrite forLines_app. unfold andThen.
    destruct (Hok front n Hnf Hfront) as (es & n1 & ->).
    cbn [forLines]. unfold bind, parseJSONLine.
    rewrite eqb_empty_false, Hbad by exact Hbadne. unfold fail. eauto.
Qed.

(** X11: the only errors of [parseLines] are the empty-line error, for a
    line that is empty after trimming, and a JSON decode error, for a line
    that does not decode while the format worked with is JSON, given or
    detected; so [ParseString], which passes on no empty line, returns
    nothing but a JSON decode error on ASCII input. *)
Theorem parseLines_errors :
  (∀ (p : parser) (lines : list string) (n n' : nat) (e : error),
     parseLines p lines n = (Err e, n') →
     (e = ErrEmptyLine ∧ ∃ line, line ∈ lines ∧ TrimSpace line = EmptyString)
     ∨ (effectiveFormat p lines = FormatJSON
        ∧ ∃ line cause,
            line ∈ lines ∧ json_Unmarshal (TrimSpace line) = inl cause
            ∧ e = ErrInvalidJSON cause))
  ∧ (∀ (p : parser) (s : string) (n n' : nat) (e : error),
       isASCII s = true → ParseString p s n = (Err e, n') →
       effectiveFormat p (cleanLines (Split s newline) []) = FormatJSON
       ∧ ∃ cause, e = ErrInvalidJSON cause).
Proof.
  assert (∀ (p : parser) (lines : list string) (n n' : nat) (e : error),
            parseLines p lines n = (Err e, n') →
            (e = ErrEmptyLine ∧ ∃ line, line ∈ lines ∧ TrimSpace line = EmptyString)
            ∨ (effectiveFormat p lines = FormatJSON
               ∧ ∃ line cause,
                   line ∈ lines ∧ json_Unmarshal (TrimSpace line) = inl cause
                   ∧ e = ErrInvalidJSON cause)) as Hlines.
  { intros p lines n n' e. rewrite parseLines_forLines. intros Hrun.
    apply forLines_error in Hrun as (line & m & Hin & Hl).
    apply lineParser_Err in Hl as [_ [[-> He] | (Hf & _ & c & Hc & ->)]].
    - left. eauto.
    - right. eauto 6. }
  split; [exact Hlines|].
  intros p s n n' e Hs Hrun. unfold ParseString in Hrun.
  apply Hlines in Hrun as [[_ (line & Hin & He)] | (Hf & line & c & _ & _ & ->)].
  - exfalso.
    assert (Forall (λ l, TrimSpace l ≠ EmptyString) (cleanLines (Split s newline) []))
      as Hall.
    { apply cleanLines_ascii; [|constructor].
      apply splitAcc_ascii; [reflexivity | exact Hs]. }
    rewrite Forall_forall in Hall. apply (Hall line Hin He).
  - eauto.
Qed.

Lemma splitAcc_app (sep : ascii) (a b : string) :
  ∀ cur : string,
    splitAcc sep cur (a +:+ String sep b)
    = splitAcc sep cur a ++ splitAcc sep EmptyString b.
Proof.
  induction a as [|c a IH]; intros cur.
  - change (EmptyString +:+ String sep b) with (String sep b). simpl.
    rewrite Ascii.eqb_refl. reflexivity.
  - rewrite app_cons. simpl. destruct (Ascii.eqb c sep); rewrite IH; reflexivity.
Qed.

Lemma cleanLines_acc (lines : list string) :
  ∀ clean : list string, cleanLines lines clean = clean ++ cleanLines lines [].
Proof.
  induction lines as [|l ls IH]; intros clean; simpl.
  - rewrite app_nil_r. reflexivity.
  - destruct (negb (String.eqb (TrimSpace l) EmptyString)); [|apply IH].
    rewrite (IH (clean ++ [TrimSpace l])), (IH [TrimSpace l]), <- app_assoc.
    reflexivity.
Qed.

Lemma cleanLines_app (x y : list string) :
  cleanLines (x ++ y) [] = cleanLines x [] ++ cleanLines y [].
Proof.
  induction x as [|l ls IH]; [reflexivity|]. simpl.
  destruct (negb (String.eqb (TrimSpace l) EmptyString)); [|exact IH].
  rewrite (cleanLines_acc (ls ++ y)), (cleanLines_acc ls), IH, <- app_assoc.
  reflexivity.
Qed.

(** The lines [ParseString] keeps of two strings joined by a newline are
    those of the first followed by those of the second. *)
Lemma cleanLines_Split_newline (a b : string) :
  cleanLines (Split (a +:+ String newline b) newline) []
  = cleanLines (Split a newline) [] ++ cleanLines (Split b newline) [].
Proof. unfold Split. rewrite splitAcc_app. apply cleanLines_app. Qed.

(** X12: with a format that is not auto, parsing goes line by line: the
    records of two batches put together, or of two strings joined by a
    newline, are the records of the first followed by the records of the
    second, and the first error met is the error of the whole. *)
Theorem fixed_format_parses_line_by_line (f : Format) (n : nat) :
  f ≠ FormatAuto →
  (∀ l1 l2 : list string,
     parseLines (NewWithFormat f) (l1 ++ l2) n
     = andThen (parseLines (NewWithFormat f) l1) (parseLines (NewWithFormat f) l2) n)
  ∧ (∀ a b : string,
       ParseString (NewWithFormat f) (a +:+ String newline b) n
       = andThen (ParseString (NewWithFormat f) a) (ParseString (NewWithFormat f) b) n).
Proof.
  intros Hf.
  assert (∀ l1 l2 : list string,
            parseLines (NewWithFormat f) (l1 ++ l2) n
            = andThen (parseLines (NewWithFormat f) l1)
                (parseLines (NewWithFormat f) l2) n) as Hlines.
  { intros l1 l2. rewrite parseLines_forLines, effectiveFormat_fixed by exact Hf.
    rewrite forLines_app. unfold andThen.
    rewrite (parseLines_forLines _ l1), effectiveFormat_fixed by exact Hf.
    destruct (forLines (lineParser f) l1 [] n) as [[e1|e] n1]; [|reflexivity].
    rewrite (parseLines_forLines _ l2), effectiveFormat_fixed by exact Hf.
    reflexivity. }
  split; [exact Hlines|].
  intros a b. unfold ParseString. rewrite cleanLines_Split_newline. apply Hlines.
Qed.

(** X13: lines that are empty after trimming are ignored in every mode:
    a string with such lines put between two of its parts gives what the
    string without them gives. *)
Theorem blank_lines_are_ignored (p : parser) (a w b : string) (n : nat) :
  Forall (λ line, TrimSpace line = EmptyString) (Split w newline) →
  ParseString p (a +:+ String newline (w +:+ String newline b)) n
  = ParseString p (a +:+ String newline b) n.
Proof.
  intros Hw. unfold ParseString.
  rewrite !cleanLines_Split_newline, (cleanLines_blank _ _ Hw). reflexivity.
Qed.

End BatchProperties.

(** ** The clock, and batches of one kind *)

Section ClockFacts.
Context `{RT : GoRuntime}.

Lemma sameButClock_refl_or_now (ts : option Time) (l msg : string)
    (F : gmap string Value) (n m : nat) :
  sameButClock
    (mkLogEntry (match ts with Some t => t | None => time_Now n end) l msg F)
    (mkLogEntry (match ts with Some t => t | None => time_Now m end) l msg F).
Proof.
  unfold sameButClock; simpl. repeat split.
  destruct ts; [left; reflexivity | right; eauto].
Qed.

(** A line parser run at two readings of the clock ends alike. *)
Lemma lineParser_clock (f : Format) (line : string) (n m : nat) :
  sameLineOutcome (lineParser f line n).1 (lineParser f line m).1.
Proof.
  destruct (String.eqb_spec (TrimSpace line) EmptyString) as [He|Hne].
  - destruct (lineParser_cases f) as [[_ ->] | [[_ ->] | (_ & _ & ->)]];
      unfold parseJSONLine, parseLogfmtLine, parseTextLine; rewrite He; reflexivity.
  - destruct (lineParser_cases f) as [[_ ->] | [[_ ->] | (_ & _ & ->)]].
    + destruct (json_Unmarshal (TrimSpace line)) as [c|raw] eqn:Hraw.
      * unfold parseJSONLine. rewrite eqb_empty_false, Hraw by exact Hne. reflexivity.
      * rewrite (parseJSONLine_decoded line raw n Hne Hraw),
          (parseJSONLine_decoded line raw m Hne Hraw). cbn [fst sameLineOutcome].
        destruct (firstTimestamp jsonTimestampKeys raw) as [[k t]|].
        -- apply (sameButClock_refl_or_now (Some t) _ _ _ n m).
        -- apply (sameButClock_refl_or_now None _ _ _ n m).
    + rewrite (parseLogfmtLine_decoded line n Hne), (parseLogfmtLine_decoded line m Hne).
      cbn [fst sameLineOutcome].
      match goal with |- context [IsZero ?t] => destruct (IsZero t) end.
      * apply (sameButClock_refl_or_now None _ _ _ n m).
      * match goal with
        | |- sameButClock (mkLogEntry ?t _ _ _) _ =>
            apply (sameButClock_refl_or_now (Some t) _ _ _ n m)
        end.
    + unfold parseTextLine. rewrite eqb_empty_false by exact Hne.
      set (e := tryPatterns initTextPatterns (TrimSpace line)
                  (mkLogEntry zeroTime "INFO" (TrimSpace line) ∅)).
      destruct (IsZero (Timestamp e)) eqn:Hz.
      * unfold bind, now, ret. cbn [fst sameLineOutcome].
        unfold sameButClock, setTimestamp; simpl. repeat split. right. eauto.
      * unfold ret. cbn [fst sameLineOutcome]. unfold sameButClock. auto.
Qed.

Lemma forLines_clock_independent (f : string → M LogEntry) (lines : list string) :
  (∀ line n m, sameLineOutcome (f line n).1 (f line m).1) →
  ∀ (acc1 acc2 : list LogEntry) (n m : nat),
    Forall2 sameButClock acc1 acc2 →
    sameOutcome (forLines f lines acc1 n).1 (forLines f lines acc2 m).1.
Proof.
  intros Hf. induction lines as [|l ls IH]; intros acc1 acc2 n m Hacc.
  - exact Hacc.
  - cbn [forLines]. unfold bind. specialize (Hf l n m).
    destruct (f l n) as [[e1|x] n1], (f l m) as [[e2|y] m1]; simpl in Hf;
      try contradiction.
    + apply IH. apply Forall2_app; [exact Hacc|]. constructor; [exact Hf | constructor].
    + exact Hf.
Qed.

(** X14: what a parse returns does not depend on when it runs, but for
    the timestamps that default to the clock: run at two readings of the
    clock, [parseLines] and [ParseString] fail with the same error or
    return records with the same levels, messages and fields, whose
    timestamps are the same or both readings of the clock. *)
Theorem parse_depends_on_clock_for_default_timestamps_only
    (p : parser) (n m : nat) :
  (∀ lines : list string,
     sameOutcome (parseLines p lines n).1 (parseLines p lines m).1)
  ∧ (∀ s : string, sameOutcome (ParseString p s n).1 (ParseString p s m).1).
Proof.
  assert (∀ lines : list string,
            sameOutcome (parseLines p lines n).1 (parseLines p lines m).1) as Hlines.
  { intros lines. rewrite !parseLines_forLines.
    apply forLines_clock_independent; [|constructor].
    intros line n0 m0. apply lineParser_clock. }
  split; [exact Hlines|]. intros s. apply Hlines.
Qed.

End ClockFacts.

Section DetectionFacts.
Context `{RT : GoRuntime}.

(** The answer of [detectFormat] from the votes of the sampled lines. *)
Lemma detectFormat_votes (samples : list string) :
  detectFormat samples
  = (if (countIf isLogfmt (take 10 samples) <? countIf isJSON (take 10 samples))
        && (Z.of_nat (length (take 10 samples)) <? 2 * countIf isJSON (take 10 samples))
     then FormatJSON
     else if Z.of_nat (length (take 10 samples))
             <? 2 * countIf isLogfmt (take 10 samples)
     then FormatLogfmt else FormatText).
Proof.
  rewrite <- !half_lt by lia. unfold detectFormat.
  destruct (length samples =? 0)%nat eqn:Hlen.
  - apply Nat.eqb_eq in Hlen. destruct samples; [reflexivity | discriminate].
  - assert (take (if (length samples <? 10)%nat then length samples else 10%nat) samples
            = take 10 samples) as ->.
    { destruct (length samples <? 10)%nat eqn:Hlt; [|reflexivity].
      apply Nat.ltb_lt in Hlt. rewrite !take_ge by lia. reflexivity. }
    destruct (scores_count (take 10 samples) ∅) as (-> & -> & ->).
    unfold score. rewrite !lookup_empty. simpl. reflexivity.
Qed.

Lemma countIf_all {A} (f : A → bool) (l : list A) :
  Forall (λ x, f x = true) l → countIf f l = Z.of_nat (length l).
Proof.
  induction l as [|x l IH]; intros H; [reflexivity|].
  inversion H as [|? ? Hx Hl]; subst. rewrite countIf_cons, Hx, IH by exact Hl.
  cbn [length]. lia.
Qed.

Lemma countIf_none {A} (f : A → bool) (l : list A) :
  Forall (λ x, f x = false) l → countIf f l = 0.
Proof.
  induction l as [|x l IH]; intros H; [reflexivity|].
  inversion H as [|? ? Hx Hl]; subst. rewrite countIf_cons, Hx, IH by exact Hl.
  reflexivity.
Qed.

Lemma countIf_le {A} (f : A → bool) (l : list A) :
  0 ≤ countIf f l ≤ Z.of_nat (length l).
Proof.
  induction l as [|x l IH]; [unfold countIf; simpl; lia|].
  rewrite countIf_cons. cbn [length]. destruct (f x); lia.
Qed.

Lemma countIf_lt {A} (f : A → bool) (l : list A) (x : A) :
  x ∈ l → f x = false → countIf f l < Z.of_nat (length l).
Proof.
  induction l as [|y l IH]; intros Hin Hx; [inversion Hin|].
  rewrite countIf_cons. cbn [length].
  apply elem_of_cons in Hin as [<-|Hin].
  - rewrite Hx. pose proof (countIf_le f l). lia.
  - specialize (IH Hin Hx). destruct (f y); lia.
Qed.

Lemma detect_all_json (samples : list string) :
  Forall (λ line, isJSON line = true) (take 10 samples) →
  (∃ line, line ∈ take 10 samples ∧ isLogfmt line = false) →
  detectFormat samples = FormatJSON.
Proof.
  intros Hj (line & Hin & Hl). rewrite detectFormat_votes.
  rewrite (countIf_all _ _ Hj).
  pose proof (countIf_lt isLogfmt _ line Hin Hl) as Hlt.
  assert (0 < Z.of_nat (length (take 10 samples))) as Hpos.
  { destruct (take 10 samples); [inversion Hin | cbn [length]; lia]. }
  destruct (Z.ltb_spec (countIf isLogfmt (take 10 samples))
              (Z.of_nat (length (take 10 samples)))); [|lia].
  destruct (Z.ltb_spec (Z.of_nat (length (take 10 samples)))
              (2 * Z.of_nat (length (take 10 samples)))); [reflexivity | lia].
Qed.

(** X15: batches of one kind.  Sampled lines that all look like logfmt
    give logfmt, even when each of them is a JSON object as well; sampled
    lines that are all JSON objects, one of which does not look like
    logfmt, give JSON; sampled lines that are neither give text. *)
Theorem detectFormat_uniform_batches (samples : list string) :
  (take 10 samples ≠ [] →
   Forall (λ line, isLogfmt line = true) (take 10 samples) →
   detectFormat samples = FormatLogfmt)
  ∧ (Forall (λ line, isJSON line = true) (take 10 samples) →
     (∃ line, line ∈ take 10 samples ∧ isLogfmt line = false) →
     detectFormat samples = FormatJSON)
  ∧ (Forall (λ line, isJSON line = false ∧ isLogfmt line = false) (take 10 samples) →
     detectFormat samples = FormatText).
Proof.
  split; [|split].
  - intros Hne Hl. rewrite detectFormat_votes. rewrite (countIf_all _ _ Hl).
    pose proof (countIf_le isJSON (take 10 samples)) as Hj.
    assert (0 < Z.of_nat (length (take 10 samples))) as Hpos.
    { destruct (take 10 samples); [contradiction | cbn [length]; lia]. }
    destruct (Z.ltb_spec (Z.of_nat (length (take 10 samples)))
                (countIf isJSON (take 10 samples))); [lia|]. cbn [andb].
    destruct (Z.ltb_spec (Z.of_nat (length (take 10 samples)))
                (2 * Z.of_nat (length (take 10 samples)))); [reflexivity | lia].
  - apply detect_all_json.
  - intros H. rewrite detectFormat_votes.
    rewrite (countIf_none isJSON), (countIf_none isLogfmt).
    + pose proof (Nat2Z.is_nonneg (length (take 10 samples))).
      destruct (Z.ltb_spec 0 0); [lia|]. cbn [andb].
      destruct (Z.ltb_spec (Z.of_nat (length (take 10 samples))) (2 * 0));
        [lia | reflexivity].
    + eapply Forall_impl; [exact H|]. intros x [_ Hx]. exact Hx.
    + eapply Forall_impl; [exact H|]. intros x [Hx _]. exact Hx.
Qed.

(** X16: the detector and the JSON parser agree: a batch of lines that
    all count as JSON for the detector, one of the sampled ones not
    looking like logfmt, is parsed in auto mode by the JSON parser and
    without an error, one record per line. *)
Theorem auto_mode_parses_json_batches (lines : list string) (n : nat) :
  Forall (λ line, isJSON line = true) lines →
  (∃ line, line ∈ take 10 lines ∧ isLogfmt line = false) →
  parseLines New lines n = parseJSON lines n
  ∧ ∃ es n', parseLines New lines n = (Ok es, n') ∧ length es = length lines.
Proof.
  intros Hj Hl.
  assert (detectFormat lines = FormatJSON) as Hd.
  { apply detect_all_json; [|exact Hl]. apply Forall_take, Hj. }
  assert (parseLines New lines n = parseJSON lines n) as Heq.
  { rewrite parseLines_forLines. unfold effectiveFormat, New; simpl. rewrite Hd.
    reflexivity. }
  split; [exact Heq|]. rewrite Heq.
  destruct (forLines_total parseJSONLine lines [] n) as (es & n' & H & Hlen).
  - intros line m Hin. rewrite Forall_forall in Hj.
    destruct (proj1 (isJSON_iff line) (Hj line Hin)) as ([t Ht] & _ & raw & Hraw).
    apply (parseJSONLine_total line raw m); [|exact Hraw].
    rewrite Ht. discriminate.
  - exists es, n'. split; [exact H | exact Hlen].
Qed.

(** X17: the four formats have four names, and every other value of
    [Format] is named unknown and parsed as text. *)
Theorem Format_String_names (f g : Format) :
  (Format_String f = "unknown"
   ↔ f ≠ FormatAuto ∧ f ≠ FormatJSON ∧ f ≠ FormatLogfmt ∧ f ≠ FormatText)
  ∧ (Format_String f = Format_String g → Format_String f ≠ "unknown" → f = g)
  ∧ (Format_String f = "unknown" →
     ∀ (lines : list string) (n : nat),
       parseLines (NewWithFormat f) lines n
       = parseLines (NewWithFormat FormatText) lines n).
Proof.
  assert (Format_String f = "unknown"
          ↔ f ≠ FormatAuto ∧ f ≠ FormatJSON ∧ f ≠ FormatLogfmt ∧ f ≠ FormatText)
    as Hunknown.
  { unfold Format_String, FormatAuto, FormatJSON, FormatLogfmt, FormatText.
    destruct (Z.eqb_spec f 1), (Z.eqb_spec f 2), (Z.eqb_spec f 3), (Z.eqb_spec f 0);
      split; try discriminate; try (intros (? & ? & ? & ?); contradiction); auto. }
  split; [exact Hunknown|]. split.
  - unfold Format_String, FormatAuto, FormatJSON, FormatLogfmt, FormatText.
    destruct (Z.eqb_spec f 1), (Z.eqb_spec f 2), (Z.eqb_spec f 3), (Z.eqb_spec f 0),
      (Z.eqb_spec g 1), (Z.eqb_spec g 2), (Z.eqb_spec g 3), (Z.eqb_spec g 0);
      try discriminate; try congruence; try lia.
  - intros H lines n. apply Hunknown in H as (Ha & Hj & Hl & _).
    rewrite !parseLines_forLines.
    rewrite effectiveFormat_fixed by exact Ha.
    rewrite effectiveFormat_fixed by discriminate.
    destruct (lineParser_cases f) as [[? _] | [[? _] | (_ & _ & ->)]];
      [contradiction | contradiction | reflexivity].
Qed.

End DetectionFacts.

(** ** The properties at concrete inputs *)

Import Example.

(** C3 as the specification states it fails: the line [foo] holds no [=], the
    tokenizer ends it still reading a key, and the key [foo] is emitted
    with an empty value. *)
Lemma bare_key_emitted_counterexample :
  Contains "foo" "=" = false
  ∧ inKey (tokLoop None "foo" tokInit) = true
  ∧ parseLogfmtPairs "foo" !! "foo" = Some (VString EmptyString).
Proof. repeat split; vm_compute; reflexivity. Qed.

Lemma pending_key_emitted_witness :
  parseLogfmtPairs "a=1 foo"
  = <["foo" := VString EmptyString]> {["a" := VString "1"]}.
Proof.
  apply (proj1 (proj2 pending_key_emitted) "a=1 " "foo" {["a" := VString "1"]}).
  - vm_compute. reflexivity.
  - discriminate.
  - reflexivity.
Defined.

Lemma quoted_value_round_trips_witness :
  "msg" ≠ EmptyString
  ∧ Contains "msg" "=" = false
  ∧ properlyQuoted ("Connection " +:+ escapedQuote +:+ "timed out" +:+ escapedQuote) = true
  ∧ parseLogfmtPairs
      (quotedPair "msg" ("Connection " +:+ escapedQuote +:+ "timed out" +:+ escapedQuote))
    = {[ keyText "msg"
         := VString ("Connection " +:+ escapedQuote +:+ "timed out" +:+ escapedQuote) ]}.
Proof.
  assert ("msg" ≠ EmptyString) as Hk by discriminate.
  assert (Contains "msg" "=" = false) as Hnoeq by reflexivity.
  assert (properlyQuoted
            ("Connection " +:+ escapedQuote +:+ "timed out" +:+ escapedQuote) = true)
    as Hv by reflexivity.
  split; [exact Hk|]. split; [exact Hnoeq|]. split; [exact Hv|].
  apply (proj1 (quoted_value_round_trips "msg" _ Hk Hnoeq Hv)).
Defined.

Lemma escaped_quote_kept_witness :
  tokLoop (Some " "%char) escapedQuote (mkTok ∅ "msg" "a " true false)
  = mkTok ∅ "msg" ("a " +:+ escapedQuote) true false.
Proof.
  apply (proj1 escaped_quote_kept (Some " "%char) (mkTok ∅ "msg" "a " true false));
    reflexivity.
Defined.

Lemma ParseLevel_table_witness : ParseLevel "wrn" = "WARN".
Proof.
  apply (proj1 (proj2 (proj2 (ParseLevel_table "wrn")))).
  right. right. reflexivity.
Defined.

Lemma parseTimestamp_cases_witness :
  parseTimestamp (VString "2024-01-02 15:04:05") = Ok jan2.
Proof.
  apply (proj1 (proj2 parseTimestamp_cases)).
  exists 3%nat, "2006-01-02 15:04:05".
  split; [reflexivity|]. split; [reflexivity|].
  intros [|[|[|j]]] l Hj Hl; try lia; injection Hl as <-; reflexivity.
Defined.

Lemma detectFormat_decision_witness :
  detectFormat [jsonLine; "level=info msg=started"; jsonLine] = FormatJSON.
Proof.
  apply (proj1 (proj2 (proj2 (detectFormat_decision
                                 [jsonLine; "level=info msg=started"; jsonLine])))).
  vm_compute. split; reflexivity.
Defined.

Lemma empty_input_no_records_witness :
  Forall (λ line, TrimSpace line = EmptyString)
    (Split (String " " (String newline (String "009" (String newline " ")))) newline)
  ∧ ParseString New (String " " (String newline (String "009" (String newline " ")))) 0%nat
    = (Ok [], 0%nat).
Proof.
  assert (Forall (λ line, TrimSpace line = EmptyString)
            (Split (String " " (String newline (String "009" (String newline " "))))
               newline)) as Hall
    by (repeat constructor).
  split; [exact Hall|].
  apply (proj1 (proj2 (proj2 (empty_input_no_records New 0%nat))) _ Hall).
Defined.

Lemma json_fails_fast_witness :
  (∃ e n',
     parseJSON [jsonLine; "{invalid}"] 0%nat = (Err e, n')
     ∧ parseLines (NewWithFormat FormatJSON) [jsonLine; "{invalid}"] 0%nat = (Err e, n')
     ∧ (Forall (λ line, TrimSpace line ≠ EmptyString) [jsonLine; "{invalid}"] →
        ∃ cause, e = ErrInvalidJSON cause))
  ∧ Forall (λ line, TrimSpace line ≠ EmptyString) ["{invalid}"; "level=info x"]
  ∧ (∃ es n',
       parseLines (NewWithFormat FormatLogfmt) ["{invalid}"; "level=info x"] 0%nat
       = (Ok es, n')
       ∧ length es = 2%nat).
Proof.
  assert (Forall (λ line, TrimSpace line ≠ EmptyString) ["{invalid}"; "level=info x"])
    as Hall by (repeat constructor; intros H; vm_compute in H; discriminate H).
  split; [|split].
  - apply (proj1 (json_fails_fast_logfmt_text_complete [jsonLine; "{invalid}"] 0%nat)).
    exists "{invalid}",
      "invalid character 'i' looking for beginning of object key string".
    split; [right; left | vm_compute; reflexivity].
  - exact Hall.
  - destruct (proj1 (proj2 (json_fails_fast_logfmt_text_complete
                              ["{invalid}"; "level=info x"] 0%nat)) Hall)
      as (_ & Hflat & _).
    exact Hflat.
Defined.

Lemma parseJSONLine_timestamp_and_fields_witness :
  TrimSpace jsonLine ≠ EmptyString
  ∧ json_Unmarshal (TrimSpace jsonLine) = inr jsonObject
  ∧ ∃ (entry : LogEntry) (n' : nat),
      parseJSONLine jsonLine 0%nat = (Ok entry, n')
      ∧ Timestamp entry = jan2 ∧ n' = 0%nat
      ∧ Fields entry !! "timestamp" = None
      ∧ Fields entry !! "service" = Some (VString "api").
Proof.
  assert (TrimSpace jsonLine ≠ EmptyString) as Hne
    by (intros H; vm_compute in H; discriminate H).
  assert (json_Unmarshal (TrimSpace jsonLine) = inr jsonObject) as Hraw
    by (vm_compute; reflexivity).
  split; [exact Hne|]. split; [exact Hraw|].
  destruct (parseJSONLine_timestamp_and_fields jsonLine jsonObject 0%nat Hne Hraw)
    as (entry & n' & Hrun & _ & Hts & _ & _ & _ & Hother).
  exists entry, n'. split; [exact Hrun|].
  assert (jsonObject !! "timestamp" = Some (VString "2024-01-02T15:04:05Z")) as H1 by (vm_compute; reflexivity).
  assert (parseTimestamp (VString "2024-01-02T15:04:05Z") = Ok jan2) as H2 by (vm_compute; reflexivity).
  destruct (Hts 0%nat "timestamp" (VString "2024-01-02T15:04:05Z") jan2 eq_refl H1 H2)
    as (Ht & Hk & Hn).
  { intros j k' v' Hj. lia. }
  split; [exact Ht|]. split; [exact Hn|]. split; [exact Hk|].
  rewrite Hother.
  - vm_compute. reflexivity.
  - unfold jsonTimestampKeys, jsonLevelKeys, jsonMessageKeys. intros H.
    repeat (apply elem_of_cons in H as [H|H]; [discriminate H|]).
    inversion H.
Defined.

Lemma parseTextLine_first_match_witness :
  TrimSpace "[INFO] Starting application" ≠ EmptyString
  ∧ ∃ (entry : LogEntry) (n' : nat),
      parseTextLine "[INFO] Starting application" initTextPatterns 0%nat
      = (Ok entry, n')
      ∧ Timestamp entry = clock 0 ∧ n' = 1%nat
      ∧ Level entry = "INFO" ∧ Message entry = "Starting application".
Proof.
  assert (TrimSpace "[INFO] Starting application" ≠ EmptyString) as Hne
    by (intros H; vm_compute in H; discriminate H).
  split; [exact Hne|].
  destruct (parseTextLine_first_match "[INFO] Starting application"
              initTextPatterns 0%nat Hne)
    as (entry & n' & Hrun & _ & Hfirst & _).
  exists entry, n'. split; [exact Hrun|].
  destruct (Hfirst (take 3 initTextPatterns) []
              (@mkPattern runtime bracketPattern EmptyString 0 1 MessageIndexAlt)
              ["[INFO] Starting application"; "INFO"; "Starting application"])
    as (Ht & Hn & Hl & Hm & _).
  - reflexivity.
  - repeat constructor.
  - reflexivity.
  - split; [exact Ht|]. split; [exact Hn|]. split; [exact Hl | exact Hm].
Defined.

Lemma tokenizer_keys_nonempty_values_strings_witness :
  parseLogfmtPairs "a=1 b=2" !! "b" = Some (VString "2")
  ∧ "b" ≠ EmptyString ∧ ∃ s : string, VString "2" = VString s.
Proof.
  assert (parseLogfmtPairs "a=1 b=2" !! "b" = Some (VString "2")) as Hb
    by (vm_compute; reflexivity).
  split; [exact Hb|].
  exact (tokenizer_keys_nonempty_values_strings "a=1 b=2" "b" (VString "2") Hb).
Defined.

Lemma rendered_pairs_read_back_witness :
  Forall wellFormedPair
    [mkPair "level" "info" false; mkPair "msg" "task done" true;
     mkPair "level" "warn" false]
  ∧ parseLogfmtPairs
      (renderPairs [mkPair "level" "info" false; mkPair "msg" "task done" true;
                    mkPair "level" "warn" false])
    = storePairs ∅ [mkPair "level" "info" false; mkPair "msg" "task done" true;
                    mkPair "level" "warn" false].
Proof.
  assert (Forall wellFormedPair
            [mkPair "level" "info" false; mkPair "msg" "task done" true;
             mkPair "level" "warn" false]) as Hwf.
  { repeat (constructor; [split; [discriminate | split; reflexivity]|]).
    constructor. }
  split; [exact Hwf|].
  destruct (rendered_pairs_read_back _ Hwf) as [Hmap _]. exact Hmap.
Defined.

Lemma unterminated_quote_keeps_rest_witness :
  "msg" ≠ EmptyString
  ∧ Contains "msg" "=" = false
  ∧ quotesEscaped dquote "never closed" = true
  ∧ parseLogfmtPairs ("msg" +:+ "=" +:+ String dquote "never closed")
    = {[ keyText "msg" := VString "never closed" ]}.
Proof.
  assert ("msg" ≠ EmptyString) as Hk by discriminate.
  assert (Contains "msg" "=" = false) as Hnoeq by reflexivity.
  assert (quotesEscaped dquote "never closed" = true) as Hv by reflexivity.
  split; [exact Hk|]. split; [exact Hnoeq|]. split; [exact Hv|].
  destruct (unterminated_quote_keeps_rest "msg" "never closed" Hk Hnoeq Hv)
    as [Hmap _].
  exact Hmap.
Defined.

Lemma key_bytes_never_merge_witness :
  "user" ≠ EmptyString
  ∧ Contains "user" "=" = false
  ∧ plainValue "bob" = true
  ∧ isASCII "user" = true
  ∧ parseLogfmtPairs ("user" +:+ "=" +:+ "bob") !! "user" = Some (VString "bob").
Proof.
  assert ("user" ≠ EmptyString) as Hk by discriminate.
  assert (Contains "user" "=" = false) as Hnoeq by reflexivity.
  assert (plainValue "bob" = true) as Hv by reflexivity.
  assert (isASCII "user" = true) as Ha by reflexivity.
  split; [exact Hk|]. split; [exact Hnoeq|]. split; [exact Hv|]. split; [exact Ha|].
  destruct (key_bytes_never_merge "user" "user" "bob" "bob" Hk Hnoeq Hv Hk Hnoeq Hv)
    as [_ [_ Hfound]].
  exact (Hfound Ha).
Defined.

Lemma ParseLevel_idempotent_witness :
  isASCII "Warning" = true ∧ ParseLevel (ToUpper "Warning") = ParseLevel "Warning".
Proof.
  assert (isASCII "Warning" = true) as Ha by reflexivity.
  split; [exact Ha|].
  destruct (ParseLevel_idempotent "Warning") as [_ Hcase]. exact (Hcase Ha).
Defined.

Lemma parseJSONLine_level_and_message_witness :
  TrimSpace jsonLine ≠ EmptyString
  ∧ json_Unmarshal (TrimSpace jsonLine) = inr jsonObject
  ∧ ∃ (entry : LogEntry) (n' : nat),
      parseJSONLine jsonLine 0%nat = (Ok entry, n')
      ∧ Level entry = ParseLevel "ERROR"
      ∧ Fields entry !! "level" = None
      ∧ Message entry = "Database connection failed"
      ∧ Fields entry !! "message" = None.
Proof.
  assert (TrimSpace jsonLine ≠ EmptyString) as Hne
    by (intros H; vm_compute in H; discriminate H).
  assert (json_Unmarshal (TrimSpace jsonLine) = inr jsonObject) as Hraw
    by (vm_compute; reflexivity).
  split; [exact Hne|]. split; [exact Hraw|].
  destruct (parseJSONLine_level_and_message jsonLine jsonObject 0%nat Hne Hraw)
    as (entry & n' & Hrun & Hlevel & _ & Hmessage & _).
  exists entry, n'. split; [exact Hrun|].
  assert (jsonObject !! "level" = Some (VString "ERROR")) as H1
    by (vm_compute; reflexivity).
  assert (jsonObject !! "message" = Some (VString "Database connection failed")) as H2
    by (vm_compute; reflexivity).
  destruct (Hlevel 0%nat "level" "ERROR" eq_refl H1) as [Hl Hlf].
  { intros j k' s' Hj. lia. }
  destruct (Hmessage 0%nat "message" "Database connection failed" eq_refl H2)
    as [Hm Hmf].
  { intros j k' s' Hj. lia. }
  split; [exact Hl|]. split; [exact Hlf|]. split; [exact Hm | exact Hmf].
Defined.

Lemma parseLogfmtLine_level_message_fields_witness :
  TrimSpace "level=warn msg=hello message=other user=bob" ≠ EmptyString
  ∧ ∃ (entry : LogEntry) (n' : nat),
      parseLogfmtLine "level=warn msg=hello message=other user=bob" 0%nat
      = (Ok entry, n')
      ∧ Message entry = "hello"
      ∧ Fields entry !! "msg" = None
      ∧ Fields entry !! "message"
        = parseLogfmtPairs (TrimSpace "level=warn msg=hello message=other user=bob")
          !! "message".
Proof.
  assert (TrimSpace "level=warn msg=hello message=other user=bob" ≠ EmptyString)
    as Hne by (intros H; vm_compute in H; discriminate H).
  split; [exact Hne|].
  destruct (parseLogfmtLine_level_message_fields
              "level=warn msg=hello message=other user=bob" 0%nat Hne)
    as (entry & n' & Hrun & _ & _ & Hmsg & _).
  exists entry, n'. split; [exact Hrun|].
  assert (parseLogfmtPairs (TrimSpace "level=warn msg=hello message=other user=bob")
          !! "msg" = Some (VString "hello")) as H1 by (vm_compute; reflexivity).
  exact (Hmsg "hello" H1).
Defined.

Lemma parseLogfmtLine_timestamp_witness :
  TrimSpace "timestamp=soon ts=2024-01-02T15:04:05Z" ≠ EmptyString
  ∧ ∃ (entry : LogEntry) (n' : nat),
      parseLogfmtLine "timestamp=soon ts=2024-01-02T15:04:05Z" 0%nat = (Ok entry, n')
      ∧ Fields entry !! "ts" = None
      ∧ Timestamp entry = (if IsZero jan2 then time_Now 0%nat else jan2)
      ∧ n' = (if IsZero jan2 then 1%nat else 0%nat).
Proof.
  assert (TrimSpace "timestamp=soon ts=2024-01-02T15:04:05Z" ≠ EmptyString)
    as Hne by (intros H; vm_compute in H; discriminate H).
  split; [exact Hne|].
  destruct (parseLogfmtLine_timestamp
              "timestamp=soon ts=2024-01-02T15:04:05Z" 0%nat Hne)
    as (entry & n' & Hrun & Hts & _).
  exists entry, n'. split; [exact Hrun|].
  assert (parseLogfmtPairs (TrimSpace "timestamp=soon ts=2024-01-02T15:04:05Z")
          !! "timestamp" = Some (VString "soon")) as H0 by (vm_compute; reflexivity).
  assert (parseLogfmtPairs (TrimSpace "timestamp=soon ts=2024-01-02T15:04:05Z")
          !! "time" = None) as H1 by (vm_compute; reflexivity).
  assert (parseLogfmtPairs (TrimSpace "timestamp=soon ts=2024-01-02T15:04:05Z")
          !! "ts" = Some (VString "2024-01-02T15:04:05Z")) as H2
    by (vm_compute; reflexivity).
  assert (parseTimestamp (VString "2024-01-02T15:04:05Z") = Ok jan2) as Hp
    by (vm_compute; reflexivity).
  assert (isOk (parseTimestamp (VString "soon")) = false) as Hbad
    by (vm_compute; reflexivity).
  apply (Hts 2%nat "ts" (VString "2024-01-02T15:04:05Z") jan2 eq_refl H2 Hp).
  intros [|[|j]] k' v' Hj Hk' Hv'; [| |lia].
  - injection Hk' as <-. rewrite H0 in Hv'. injection Hv' as <-. exact Hbad.
  - injection Hk' as <-. rewrite H1 in Hv'. discriminate Hv'.
Defined.

Lemma parseLines_one_record_per_line_witness :
  parseLines (NewWithFormat FormatLogfmt) ["level=info msg=started"] 0%nat
  = (Ok [mkLogEntry (clock 0) "INFO" "started" ∅], 1%nat)
  ∧ length [mkLogEntry (clock 0) "INFO" "started" ∅]
    = length ["level=info msg=started"].
Proof.
  assert (parseLines (NewWithFormat FormatLogfmt) ["level=info msg=started"] 0%nat
          = (Ok [mkLogEntry (clock 0) "INFO" "started" ∅], 1%nat)) as Hrun
    by (vm_compute; reflexivity).
  split; [exact Hrun|].
  destruct (parseLines_one_record_per_line _ _ _ _ _ Hrun) as (_ & Hlen & _).
  exact Hlen.
Defined.

Lemma parseJSON_succeeds_iff_all_decode_witness :
  Forall (λ line, TrimSpace line ≠ EmptyString) [jsonLine; "{invalid json}"; jsonLine]
  ∧ ∃ n' : nat,
      parseJSON [jsonLine; "{invalid json}"; jsonLine] 0%nat
      = (Err (ErrInvalidJSON
                "invalid character 'i' looking for beginning of object key string"),
         n').
Proof.
  assert (Forall (λ line, TrimSpace line ≠ EmptyString)
            [jsonLine; "{invalid json}"; jsonLine]) as Hall
    by (repeat constructor; intros H; vm_compute in H; discriminate H).
  split; [exact Hall|].
  destruct (parseJSON_succeeds_iff_all_decode _ 0%nat Hall) as [_ Hfirst].
  apply (Hfirst [jsonLine] [jsonLine] "{invalid json}").
  - reflexivity.
  - constructor; [|constructor]. exists jsonObject. vm_compute. reflexivity.
  - vm_compute. reflexivity.
Defined.

Lemma fixed_format_parses_line_by_line_witness :
  FormatLogfmt ≠ FormatAuto
  ∧ ParseString (NewWithFormat FormatLogfmt)
      ("level=info msg=a" +:+ String newline "level=warn msg=b") 0%nat
    = andThen (ParseString (NewWithFormat FormatLogfmt) "level=info msg=a")
        (ParseString (NewWithFormat FormatLogfmt) "level=warn msg=b") 0%nat.
Proof.
  assert (FormatLogfmt ≠ FormatAuto) as Hf by discriminate.
  split; [exact Hf|].
  destruct (fixed_format_parses_line_by_line FormatLogfmt 0%nat Hf) as [_ Hjoin].
  exact (Hjoin "level=info msg=a" "level=warn msg=b").
Defined.

Lemma blank_lines_are_ignored_witness :
  Forall (λ line, TrimSpace line = EmptyString)
    (Split (String " " (String newline (String "009" EmptyString))) newline)
  ∧ ParseString New
      ("level=info msg=a"
       +:+ String newline
             (String " " (String newline (String "009" EmptyString))
              +:+ String newline "level=warn msg=b")) 0%nat
    = ParseString New
        ("level=info msg=a" +:+ String newline "level=warn msg=b") 0%nat.
Proof.
  assert (Forall (λ line, TrimSpace line = EmptyString)
            (Split (String " " (String newline (String "009" EmptyString))) newline))
    as Hblank by (repeat constructor).
  split; [exact Hblank|].
  exact (blank_lines_are_ignored New "level=info msg=a" _ "level=warn msg=b" 0%nat
           Hblank).
Defined.

Lemma detectFormat_uniform_batches_witness :
  take 10 ["level=info msg=started"; "time=1 level=warn"] ≠ []
  ∧ Forall (λ line, isLogfmt line = true)
      (take 10 ["level=info msg=started"; "time=1 level=warn"])
  ∧ detectFormat ["level=info msg=started"; "time=1 level=warn"] = FormatLogfmt.
Proof.
  assert (take 10 ["level=info msg=started"; "time=1 level=warn"] ≠ []) as Hne
    by discriminate.
  assert (Forall (λ line, isLogfmt line = true)
            (take 10 ["level=info msg=started"; "time=1 level=warn"])) as Hall
    by (repeat constructor).
  split; [exact Hne|]. split; [exact Hall|].
  destruct (detectFormat_uniform_batches
              ["level=info msg=started"; "time=1 level=warn"]) as [Hlogfmt _].
  exact (Hlogfmt Hne Hall).
Defined.

Lemma auto_mode_parses_json_batches_witness :
  Forall (λ line, isJSON line = true) [jsonLine; jsonLine]
  ∧ (∃ line, line ∈ take 10 [jsonLine; jsonLine] ∧ isLogfmt line = false)
  ∧ parseLines New [jsonLine; jsonLine] 0%nat = parseJSON [jsonLine; jsonLine] 0%nat.
Proof.
  assert (isJSON jsonLine = true) as Hj by (vm_compute; reflexivity).
  assert (isLogfmt jsonLine = false) as Hl by (vm_compute; reflexivity).
  assert (Forall (λ line, isJSON line = true) [jsonLine; jsonLine]) as Hall
    by (constructor; [exact Hj|]; constructor; [exact Hj|]; constructor).
  assert (∃ line, line ∈ take 10 [jsonLine; jsonLine] ∧ isLogfmt line = false) as Hone
    by (exists jsonLine; split; [left | exact Hl]).
  split; [exact Hall|]. split; [exact Hone|].
  destruct (auto_mode_parses_json_batches [jsonLine; jsonLine] 0%nat Hall Hone)
    as [Hsame _].
  exact Hsame.
Defined.

Lemma Format_String_names_witness :
  Format_String 7 = "unknown"
  ∧ parseLines (NewWithFormat 7) ["[INFO] Starting application"] 0%nat
    = parseLines (NewWithFormat FormatText) ["[INFO] Starting application"] 0%nat.
Proof.
  assert (Format_String 7 = "unknown") as Hu by reflexivity.
  split; [exact Hu|].
  destruct (Format_String_names 7 7) as (_ & _ & Htext).
  exact (Htext Hu ["[INFO] Starting application"] 0%nat).
Defined.

(** ** The scenarios of the specification, with the example runtime *)

Example scenario_json :
  ParseString (NewWithFormat FormatJSON) jsonLine 0%nat
  = (Ok [mkLogEntry jan2 "ERROR" "Database connection failed"
           {["service" := VString "api"]}], 0%nat).
Proof. vm_compute. reflexivity. Qed.

Example scenario_logfmt :
  ParseString (NewWithFormat FormatLogfmt)
    ("level=error " +:+ quotedPair "msg" "Connection timeout"
     +:+ " service=worker duration=1.23") 0%nat
  = (Ok [mkLogEntry (clock 0) "ERROR" "Connection timeout"
           (<["service" := VString "worker"]> {["duration" := VString "1.23"]})],
     1%nat).
Proof. vm_compute. reflexivity. Qed.

Example scenario_text_bracket :
  ParseString (NewWithFormat FormatText) "[INFO] Starting application" 0%nat
  = (Ok [mkLogEntry (clock 0) "INFO" "Starting application" ∅], 1%nat).
Proof. vm_compute. reflexivity. Qed.

Example scenario_text_datetime :
  ParseString (NewWithFormat FormatText)
    "2024-01-02 15:04:05 [ERROR] Failed to connect to database" 0%nat
  = (Ok [mkLogEntry jan2 "ERROR" "Failed to connect to database" ∅], 0%nat).
Proof. vm_compute. reflexivity. Qed.

Example scenario_invalid_json :
  ParseString (NewWithFormat FormatJSON) "{invalid}" 0%nat
  = (Err (ErrInvalidJSON
            "invalid character 'i' looking for beginning of object key string"),
     0%nat).
Proof. vm_compute. reflexivity. Qed.

(** A backslash right before the closing quote makes the quote an escaped
    one: the value is not properly quoted, the quote is kept and the rest
    of the line is read as part of the value. *)
Example backslash_before_closing_quote :
  properlyQuoted "C:\" = false
  ∧ parseLogfmtPairs (quotedPair "path" "C:\" +:+ " user=root")
    = {[ "path" := VString ("C:\" +:+ String dquote " user=root") ]}.
Proof. split; vm_compute; reflexivity. Qed.

(** A key with a byte from 0x80 on is stored re-encoded, its value is not. *)
Example non_ascii_key :
  parseLogfmtPairs (String "200" "=" +:+ String "200" EmptyString)
  = {[ String "195" (String "136" EmptyString) := VString (String "200" EmptyString) ]}.
Proof. vm_compute. reflexivity. Qed.
